(** * WebsiteAnalytics: users who saw a new product on day two

    The repository holds two programs for the same job:

    - [app.py]: [build_day1_index], [find_target_users], [write_output], [main];
    - [main.py]: [load_visits], [main].

    Both read two CSV files through Python's [csv.reader].  The reader is
    library code: a file is modelled by the stream of rows the reader yields,
    a row being the list of its fields (an empty line yields a row without
    fields).  The number of a row is its position in that stream, from 1, as
    [enumerate(reader, start=1)] counts it.

    A Python [str] is a sequence of Unicode code points, modelled as a list
    of [N].  [str.strip()] removes the leading and trailing code points that
    Python classifies as whitespace, [sorted] orders strings by code point.

    Module [App] is app.py with dictionaries and sets as values, [AppStore]
    is app.py on a store of mutable objects, [Main] is main.py and
    [MainScript] its command-line block.  The argument parser of app.py, the
    choice of the encoding, and what [open] and the reader raise before a
    row is yielded are not modelled. *)

From Stdlib Require Import NArith Ascii String.
From stdpp Require Import gmap sorting list fin_maps.

Local Open Scope N_scope.
Local Open Scope nat_scope.

(** ** Python strings *)

Abbreviation str := (list N).

(** An ASCII literal as a Python string. *)
Definition py (s : string) : str := N_of_ascii <$> list_ascii_of_string s.

(** The code points for which [str.isspace] holds, the ones [strip] removes. *)
Definition is_space (c : N) : bool :=
  ((9 <=? c) && (c <=? 13) || (28 <=? c) && (c <=? 32)
   || (c =? 133) || (c =? 160) || (c =? 5760)
   || (8192 <=? c) && (c <=? 8202)
   || (c =? 8232) || (c =? 8233) || (c =? 8239) || (c =? 8287)
   || (c =? 12288))%N.

Fixpoint lstrip (s : str) : str :=
  match s with
  | c :: s' => if is_space c then lstrip s' else s
  | [] => []
  end.

Definition rstrip (s : str) : str := reverse (lstrip (reverse s)).

Definition strip (s : str) : str := rstrip (lstrip s).

(** [a <= b] on Python strings: lexicographic on code points, a proper prefix
    being smaller. *)
Fixpoint str_leb (a b : str) : bool :=
  match a, b with
  | [], _ => true
  | _ :: _, [] => false
  | x :: a', y :: b' =>
      if (x <? y)%N then true
      else if (y <? x)%N then false
      else str_leb a' b'
  end.

Definition str_le (a b : str) : Prop := str_leb a b = true.

#[global] Instance str_le_dec a b : Decision (str_le a b).
Proof. unfold str_le. apply _. Defined.

(** [sorted(xs)] on strings. *)
Definition sorted (l : list str) : list str := merge_sort str_le l.

Definition newline : N := 10%N.

(** ** CSV input and exceptions *)

Abbreviation row := (list str).
Abbreviation file := (list (list str)).

(** The exceptions the code raises on the rows it is given.  What [open],
    the decoder and [csv.reader] itself raise (no such file, unknown
    encoding, undecodable bytes, an oversized field) happens before a row
    reaches the code and is outside this model. *)
Inductive exn : Type :=
| ValueError_columns (path : str) (row_num : nat) (got : nat) (r : row)
    (** app.py: "{path}: expected 3 columns at line {row_num}, got {len(row)}: {row}" *)
| ValueError_unpack (got : nat)
    (** main.py: the fields of a row do not unpack into three names; the
        message says at most how many fields there were *)
| StopIteration
    (** main.py: [next(reader)] on an exhausted reader *)
| AttributeError.
    (** a [dict] or [set] method called on an object of another kind *)

Inductive res (A : Type) : Type :=
| Ok (a : A)
| Raise (e : exn).
Arguments Ok {A} a.
Arguments Raise {A} e.

#[global] Instance res_ret : MRet res := λ A a, Ok a.

#[global] Instance res_bind : MBind res := λ A B k m,
  match m with
  | Ok a => k a
  | Raise e => Raise e
  end.

(** The value a run produced, forgetting which exception ended a failed one. *)
Definition value {A} (m : res A) : option A :=
  match m with
  | Ok a => Some a
  | Raise _ => None
  end.

(** ** app.py, with dictionaries and sets as values

    [user_to_products] and [result] are threaded through the loops as values.
    Module [AppStore] below runs the same code on an object store, where the
    sets are shared objects reached through the dictionary. *)

Module App.

(** The [for] loop of [build_day1_index]; [row_num] is the number
    [enumerate] gives to the row at the head of [rows]. *)
Fixpoint build_loop (path : str) (row_num : nat) (rows : file)
    (user_to_products : gmap str (gset str)) : res (gmap str (gset str)) :=
  match rows with
  | [] => Ok user_to_products
  | r :: rows' =>
      match r with
      | [user_id; product_id; _ts] =>
          let user_id := strip user_id in
          let product_id := strip product_id in
          if bool_decide (user_id = []) || bool_decide (product_id = [])
          then build_loop path (S row_num) rows' user_to_products
          else
            match user_to_products !! user_id with
            | None =>
                build_loop path (S row_num) rows'
                  (<[user_id := {[product_id]}]> user_to_products)
            | Some s =>
                build_loop path (S row_num) rows'
                  (<[user_id := s ∪ {[product_id]}]> user_to_products)
            end
      | _ => Raise (ValueError_columns path row_num (length r) r)
      end
  end.

Definition build_day1_index (path : str) (rows : file)
    : res (gmap str (gset str)) :=
  build_loop path 1 rows ∅.

(** The [for] loop of [find_target_users]. *)
Fixpoint find_loop (day1_index : gmap str (gset str)) (day2_path : str)
    (row_num : nat) (rows : file) (result : gset str) : res (gset str) :=
  match rows with
  | [] => Ok result
  | r :: rows' =>
      match r with
      | [user_id; product_id; _ts] =>
          let user_id := strip user_id in
          let product_id := strip product_id in
          if bool_decide (user_id = []) || bool_decide (product_id = [])
          then find_loop day1_index day2_path (S row_num) rows' result
          else
            match day1_index !! user_id with
            | None => find_loop day1_index day2_path (S row_num) rows' result
            | Some day1_products =>
                if bool_decide (user_id ∈ result)
                then find_loop day1_index day2_path (S row_num) rows' result
                else if bool_decide (product_id ∉ day1_products)
                then find_loop day1_index day2_path (S row_num) rows'
                       ({[user_id]} ∪ result)
                else find_loop day1_index day2_path (S row_num) rows' result
            end
      | _ => Raise (ValueError_columns day2_path row_num (length r) r)
      end
  end.

Definition find_target_users (day1_index : gmap str (gset str))
    (day2_path : str) (rows : file) : res (gset str) :=
  find_loop day1_index day2_path 1 rows ∅.

(** The comparator as the specification describes it once the short-circuit
    step is left out: the membership check runs for every row of a day-one
    user, also when the user is already in the result. *)
Fixpoint find_loop_without_short_circuit (day1_index : gmap str (gset str))
    (day2_path : str) (row_num : nat) (rows : file) (result : gset str)
    : res (gset str) :=
  match rows with
  | [] => Ok result
  | r :: rows' =>
      match r with
      | [user_id; product_id; _ts] =>
          let user_id := strip user_id in
          let product_id := strip product_id in
          if bool_decide (user_id = []) || bool_decide (product_id = [])
          then find_loop_without_short_circuit day1_index day2_path
                 (S row_num) rows' result
          else
            match day1_index !! user_id with
            | None =>
                find_loop_without_short_circuit day1_index day2_path
                  (S row_num) rows' result
            | Some day1_products =>
                if bool_decide (product_id ∉ day1_products)
                then find_loop_without_short_circuit day1_index day2_path
                       (S row_num) rows' ({[user_id]} ∪ result)
                else find_loop_without_short_circuit day1_index day2_path
                       (S row_num) rows' result
            end
      | _ => Raise (ValueError_columns day2_path row_num (length r) r)
      end
  end.

Definition find_target_users_without_short_circuit
    (day1_index : gmap str (gset str)) (day2_path : str) (rows : file)
    : res (gset str) :=
  find_loop_without_short_circuit day1_index day2_path 1 rows ∅.

(** [write_output]: the text written to [out].  [user_ids] lists the iterable
    in the order Python happens to enumerate it. *)
Definition write_output (user_ids : list str) : str :=
  concat ((λ uid, uid ++ [newline]) <$> sorted user_ids).

(** The two calls of [main] that compute the result set. *)
Definition target_users (day1 : str) (rows1 : file) (day2 : str) (rows2 : file)
    : res (gset str) :=
  day1_index ← build_day1_index day1 rows1;
  find_target_users day1_index day2 rows2.

Inductive outcome : Type :=
| ParserError (missing : str)
    (** [parser.error]: the named input file does not exist *)
| Uncaught (e : exn)
    (** an exception left [main] *)
| Written (text : str).
    (** [main] returned 0 after writing [text] to stdout or to [--output] *)

(** [main]; an input is its path and, when the file exists, its rows. *)
Definition main (day1 : str) (rows1 : option file)
    (day2 : str) (rows2 : option file) : outcome :=
  match rows1 with
  | None => ParserError day1
  | Some rows1 =>
      match rows2 with
      | None => ParserError day2
      | Some rows2 =>
          match target_users day1 rows1 day2 rows2 with
          | Raise e => Uncaught e
          | Ok target_users => Written (write_output (elements target_users))
          end
      end
  end.

Definition text_of (o : outcome) : option str :=
  match o with
  | Written text => Some text
  | _ => None
  end.

(** The (user_id, product_id) pair a row contributes after normalisation,
    if it contributes one. *)
Definition record_of (r : row) : option (str * str) :=
  match r with
  | [user_id; product_id; _ts] =>
      if bool_decide (strip user_id = []) || bool_decide (strip product_id = [])
      then None
      else Some (strip user_id, strip product_id)
  | _ => None
  end.

Definition records (rows : file) : list (str * str) := omap record_of rows.

End App.

(** ** app.py on an object store

    Python dictionaries and sets are mutable objects handled by reference:
    [user_to_products] maps a user to a reference to a set, and [s.add(..)]
    updates that set in place.  The store maps a reference to the object it
    points at; running a function threads the store through it. *)

Module AppStore.

Abbreviation loc := nat.

Inductive obj : Type :=
| ODict (d : gmap str loc)
| OSet (s : gset str).

Abbreviation store := (gmap loc obj).

Definition M (A : Type) : Type := store → res A * store.

#[global] Instance M_ret : MRet M := λ A a h, (Ok a, h).

#[global] Instance M_bind : MBind M := λ A B k m h,
  match m h with
  | (Ok a, h') => k a h'
  | (Raise e, h') => (Raise e, h')
  end.

Definition raise {A} (e : exn) : M A := λ h, (Raise e, h).

(** [set()] and [{}]: a new object, at a reference not in use. *)
Definition new_set : M loc := λ h,
  let l := fresh (dom h) in (Ok l, <[l := OSet ∅]> h).

Definition new_dict : M loc := λ h,
  let l := fresh (dom h) in (Ok l, <[l := ODict ∅]> h).

(** [d.get(k)] *)
Definition dict_get (d : loc) (k : str) : M (option loc) := λ h,
  match h !! d with
  | Some (ODict m) => (Ok (m !! k), h)
  | _ => (Raise AttributeError, h)
  end.

(** [d[k] = v] *)
Definition dict_setitem (d : loc) (k : str) (v : loc) : M unit := λ h,
  match h !! d with
  | Some (ODict m) => (Ok (), <[d := ODict (<[k := v]> m)]> h)
  | _ => (Raise AttributeError, h)
  end.

(** [s.add(x)] *)
Definition set_add (s : loc) (x : str) : M unit := λ h,
  match h !! s with
  | Some (OSet xs) => (Ok (), <[s := OSet (xs ∪ {[x]})]> h)
  | _ => (Raise AttributeError, h)
  end.

(** [x in s] *)
Definition set_contains (s : loc) (x : str) : M bool := λ h,
  match h !! s with
  | Some (OSet xs) => (Ok (bool_decide (x ∈ xs)), h)
  | _ => (Raise AttributeError, h)
  end.

Fixpoint build_loop (path : str) (user_to_products : loc) (row_num : nat)
    (rows : file) : M unit :=
  match rows with
  | [] => mret ()
  | r :: rows' =>
      match r with
      | [user_id; product_id; _ts] =>
          let user_id := strip user_id in
          let product_id := strip product_id in
          if bool_decide (user_id = []) || bool_decide (product_id = [])
          then build_loop path user_to_products (S row_num) rows'
          else
            s ← dict_get user_to_products user_id;
            s ← match s with
                | None =>
                    s ← new_set;
                    _ ← dict_setitem user_to_products user_id s;
                    mret s
                | Some s => mret s
                end;
            _ ← set_add s product_id;
            build_loop path user_to_products (S row_num) rows'
      | _ => raise (ValueError_columns path row_num (length r) r)
      end
  end.

Definition build_day1_index (path : str) (rows : file) : M loc :=
  user_to_products ← new_dict;
  _ ← build_loop path user_to_products 1 rows;
  mret user_to_products.

Fixpoint find_loop (day1_index : loc) (day2_path : str) (result : loc)
    (row_num : nat) (rows : file) : M unit :=
  match rows with
  | [] => mret ()
  | r :: rows' =>
      match r with
      | [user_id; product_id; _ts] =>
          let user_id := strip user_id in
          let product_id := strip product_id in
          if bool_decide (user_id = []) || bool_decide (product_id = [])
          then find_loop day1_index day2_path result (S row_num) rows'
          else
            day1_products ← dict_get day1_index user_id;
            match day1_products with
            | None => find_loop day1_index day2_path result (S row_num) rows'
            | Some day1_products =>
                qualifies ← set_contains result user_id;
                if (qualifies : bool)
                then find_loop day1_index day2_path result (S row_num) rows'
                else
                  seen ← set_contains day1_products product_id;
                  if negb seen
                  then
                    _ ← set_add result user_id;
                    find_loop day1_index day2_path result (S row_num) rows'
                  else find_loop day1_index day2_path result (S row_num) rows'
            end
      | _ => raise (ValueError_columns day2_path row_num (length r) r)
      end
  end.

Definition find_target_users (day1_index : loc) (day2_path : str)
    (rows : file) : M loc :=
  result ← new_set;
  _ ← find_loop day1_index day2_path result 1 rows;
  mret result.

(** The set object a reference points at. *)
Definition set_at (h : store) (l : loc) : option (gset str) :=
  match h !! l with
  | Some (OSet s) => Some s
  | _ => None
  end.

(** The mapping from user to product set that the dictionary at [d] holds. *)
Definition index_at (h : store) (d : loc) : option (gmap str (gset str)) :=
  match h !! d with
  | Some (ODict m) => Some (omap (set_at h) m)
  | _ => None
  end.

End AppStore.

(** ** main.py *)

Module Main.

(** [defaultdict(set)]: the entries in insertion order, one per key. *)
Abbreviation visit_map := (list (str * gset str)).

(** [user in visits] and, for a key that is present, [visits[user]]. *)
Fixpoint visits_get (visits : visit_map) (user : str) : option (gset str) :=
  match visits with
  | [] => None
  | (u, s) :: visits' => if bool_decide (u = user) then Some s else visits_get visits' user
  end.

(** [visits[user_id].add(product_id)]: a missing key is first inserted, at
    the end, with an empty set. *)
Fixpoint visits_add (visits : visit_map) (user_id product_id : str) : visit_map :=
  match visits with
  | [] => [(user_id, ∅ ∪ {[product_id]})]
  | (u, s) :: visits' =>
      if bool_decide (u = user_id)
      then (u, s ∪ {[product_id]}) :: visits'
      else (u, s) :: visits_add visits' user_id product_id
  end.

(** The [for] loop of [load_visits]. *)
Fixpoint load_loop (rows : file) (visits : visit_map) : res visit_map :=
  match rows with
  | [] => Ok visits
  | r :: rows' =>
      match r with
      | [user_id; product_id; _] =>
          load_loop rows' (visits_add visits user_id product_id)
      | _ => Raise (ValueError_unpack (length r))
      end
  end.

Definition load_visits (rows : file) : res visit_map :=
  match rows with
  | [] => Raise StopIteration
  | _header :: rows' => load_loop rows' []
  end.

(** The first loop of [main]: [users] are the keys of [day1] still to visit. *)
Fixpoint select_loop (day1 day2 : visit_map) (users : list str)
    (result_users : list str) : list str :=
  match users with
  | [] => result_users
  | user :: users' =>
      match visits_get day2 user with
      | Some day2_user =>
          if bool_decide (day2_user ∖ default ∅ (visits_get day1 user) ≠ ∅)
          then select_loop day1 day2 users' (result_users ++ [user])
          else select_loop day1 day2 users' result_users
      | None => select_loop day1 day2 users' result_users
      end
  end.

Definition result_users (day1 day2 : visit_map) : list str :=
  select_loop day1 day2 (day1.*1) [].

(** [print(user)] for each user of the list, in order. *)
Definition print_all (users : list str) : str :=
  concat ((λ user, user ++ [newline]) <$> users).

(** [main]: the text printed, or the exception raised. *)
Definition main (day1_file day2_file : file) : res str :=
  day1 ← load_visits day1_file;
  day2 ← load_visits day2_file;
  mret (print_all (result_users day1 day2)).

(** The users selected, before printing. *)
Definition selected (day1_file day2_file : file) : res (list str) :=
  day1 ← load_visits day1_file;
  day2 ← load_visits day2_file;
  mret (result_users day1 day2).

(** The (user_id, product_id) pair of a row that unpacks. *)
Definition record_of (r : row) : option (str * str) :=
  match r with
  | [user_id; product_id; _] => Some (user_id, product_id)
  | _ => None
  end.

Definition records (rows : file) : list (str * str) := omap record_of rows.

End Main.

(** ** main.py, the script

    The block run when main.py is called from the command line.  For a file
    name the environment gives either that [open] fails, or the rows the
    reader yields for the file; a file that opens but cannot be read to its
    end is outside the model. *)

Module MainScript.


(** How a run of the script ends. *)
Inductive outcome : Type :=
| Usage
    (** [usage_line] is printed and [sys.exit(1)] ends the script; no file
        is opened *)
| OpenFailed (filename : str)
    (** [open(filename)] raised *)
| Uncaught (e : exn)
    (** an exception of the loading loop left [main] *)
| Completed (text : str).
    (** [main] returned, having printed [text] *)



End MainScript.

(** * Vocabulary of the statements *)

(** A string that does not begin, or does not end, with whitespace. *)
Definition no_lead (s : str) : Prop :=
  match s with
  | c :: _ => is_space c = false
  | [] => True
  end.

Definition no_trail (s : str) : Prop := no_lead (reverse s).

(** The index holds product [p] for user [u]. *)
Definition visited (idx : gmap str (gset str)) (u p : str) : Prop :=
  ∃ s, idx !! u = Some s ∧ p ∈ s.

(** What one turn of the loop of [build_day1_index] does to the index with
    a normalised pair. *)
Definition add_record (idx : gmap str (gset str)) (u p : str)
    : gmap str (gset str) :=
  match idx !! u with
  | None => <[u := {[p]}]> idx
  | Some s => <[u := s ∪ {[p]}]> idx
  end.

(** [len(row) == 3] *)
Definition three_fields (r : row) : Prop := length r = 3.

#[global] Instance three_fields_dec r : Decision (three_fields r).
Proof. unfold three_fields. apply _. Defined.

(** What one turn of the loop of [find_target_users] does to the result
    with a normalised pair, with the short-circuit step and without it. *)
Definition check_record (idx : gmap str (gset str)) (result : gset str)
    (u p : str) : gset str :=
  match idx !! u with
  | None => result
  | Some day1_products =>
      if bool_decide (u ∈ result) then result
      else if bool_decide (p ∉ day1_products) then {[u]} ∪ result
      else result
  end.

Definition check_record_always (idx : gmap str (gset str)) (result : gset str)
    (u p : str) : gset str :=
  match idx !! u with
  | None => result
  | Some day1_products =>
      if bool_decide (p ∉ day1_products) then {[u]} ∪ result else result
  end.

(** Checking the pair [(u, p)] cannot change the result any more. *)
Definition settled (idx : gmap str (gset str)) (result : gset str)
    (u p : str) : Prop :=
  ∀ s, idx !! u = Some s → u ∈ result ∨ p ∈ s.

(** The mapping of main.py holds product [p] for user [u]. *)
Definition mvisited (v : Main.visit_map) (u p : str) : Prop :=
  ∃ s, Main.visits_get v u = Some s ∧ p ∈ s.

(** The keys of a [defaultdict] filled from [users], in insertion order. *)
Fixpoint first_seen (seen users : list str) : list str :=
  match users with
  | [] => seen
  | u :: users' =>
      if bool_decide (u ∈ seen) then first_seen seen users'
      else first_seen (seen ++ [u]) users'
  end.

(** The test of the first loop of [main] on one user. *)
Definition qualifies (day1 day2 : Main.visit_map) (user : str) : bool :=
  match Main.visits_get day2 user with
  | Some day2_user =>
      bool_decide (day2_user ∖ default ∅ (Main.visits_get day1 user) ≠ ∅)
  | None => false
  end.

(** The dictionary at [d] holds [m], every value of [m] refers to a set, and
    no two users share one. *)
Definition dict_ok (h : AppStore.store) (d : AppStore.loc)
    (m : gmap str AppStore.loc) : Prop :=
  h !! d = Some (AppStore.ODict m)
  ∧ (∀ u l, m !! u = Some l → is_Some (AppStore.set_at h l))
  ∧ (∀ u u' l, m !! u = Some l → m !! u' = Some l → u = u').

(** The product set the index holds for a user (empty for a user it does
    not hold). *)
Definition products_of (idx : gmap str (gset str)) (u : str) : gset str :=
  default ∅ (idx !! u).

(** The same for the mapping of main.py: [visits[u]]. *)
Definition mproducts_of (v : Main.visit_map) (u : str) : gset str :=
  default ∅ (Main.visits_get v u).

(** The first two fields of a row of three fields, as they stand in the file. *)
Definition raw_pair (r : row) : option (str * str) :=
  match r with
  | [user_id; product_id; _] => Some (user_id, product_id)
  | _ => None
  end.

(** A file without its repeated rows: a row of three fields is dropped when
    an earlier row of the file (or [seen]) has the same user_id and
    product_id fields; all other rows stay, in order. *)
Fixpoint remove_duplicates (seen : list (str * str)) (rows : file) : file :=
  match rows with
  | [] => []
  | r :: rows' =>
      match raw_pair r with
      | Some k =>
          if bool_decide (k ∈ seen) then remove_duplicates seen rows'
          else r :: remove_duplicates (k :: seen) rows'
      | None => r :: remove_duplicates seen rows'
      end
  end.

(** A file with other timestamps: the third field of the row at position
    [i] (from 0), when the row has one, becomes [ts i]. *)
Definition with_timestamp (t : str) (r : row) : row :=
  match r with
  | user_id :: product_id :: _ :: rest => user_id :: product_id :: t :: rest
  | _ => r
  end.

Definition with_timestamps (ts : nat → str) (rows : file) : file :=
  imap (λ i r, with_timestamp (ts i) r) rows.

(** A file with the two identifiers of every row of three fields trimmed. *)
Definition trim_ids (r : row) : row :=
  match r with
  | [user_id; product_id; t] => [strip user_id; strip product_id; t]
  | _ => r
  end.

(** A row of three fields whose user_id or product_id is blank once trimmed. *)
Definition blank_row (r : row) : Prop :=
  ∃ u p t, r = [u; p; t] ∧ (strip u = [] ∨ strip p = []).

(** The text made of the given strings, each followed by a line feed. *)
Definition lines_of (l : list str) : str :=
  concat ((λ u, u ++ [newline]) <$> l).

(** No empty line at the end of a text: it does not end in two line feeds
    and is not a lone line feed. *)
Definition no_trailing_blank_line (text : str) : Prop :=
  text ≠ [newline] ∧ ∀ k, text ≠ k ++ [newline; newline].

(** A row of three fields whose identifiers are not blank and have no
    whitespace around them: [strip] leaves them as they are. *)
Definition clean_row (r : row) : Prop :=
  ∃ u p t, r = [u; p; t] ∧ strip u = u ∧ strip p = p ∧ u ≠ [] ∧ p ≠ [].

(** A string without a line feed. *)
Definition no_newline (u : str) : Prop := newline ∉ u.

(** The index that holds, for every user, the products of both indexes. *)
Definition merge_index (a b : gmap str (gset str)) : gmap str (gset str) :=
  union_with (λ s t, Some (s ∪ t)) a b.

(** Neither the dictionary at [d] nor a set it refers to is an object of
    the store [h0]. *)
Definition owned (h0 : AppStore.store) (d : AppStore.loc)
    (m : gmap str AppStore.loc) : Prop :=
  h0 !! d = None ∧ ∀ u l, m !! u = Some l → h0 !! l = None.

(** ** Sample inputs *)

Definition u1 : str := py "u1".
Definition u2 : str := py "u2".
Definition pA : str := py "pA".
Definition pB : str := py "pB".
Definition pC : str := py "pC".
Definition pX : str := py "pX".
Definition header : row := [py "user_id"; py "product_id"; py "timestamp"].
Definition noon : str := py "2024-05-01T12:00:00".

Definition day1_csv : str := py "day1.csv".
Definition day2_csv : str := py "day2.csv".

Definition day1_rows : file := [[u1; pA; noon]; [u1; pB; noon]; [u2; pX; noon]].
Definition day2_rows : file := [[u1; pA; noon]; [u1; pC; noon]; [u2; pX; noon]].

(** A day-one file whose users first appear in descending order. *)
Definition day1_desc : file := [header; [u2; pX; noon]; [u1; pA; noon]].
Definition day2_desc : file := [header; [u1; pB; noon]; [u2; pA; noon]].

(** Rows that do not have three fields. *)
Definition short_row : row := [u1; pA].
Definition long_row : row := [u1; pA; noon; noon].

(** The store after [build_day1_index] has run on the sample day-one file in
    an empty store. *)
Definition day1_store : AppStore.store :=
  (AppStore.build_day1_index day1_csv day1_rows ∅).2.


(** Case analysis on the number of fields of a row, and on blank
    identifiers. *)
Ltac row_cases r :=
  let u := fresh "u" in
  let p := fresh "p" in
  let t := fresh "t" in
  destruct r as [|u [|p [|t [|? ?]]]].

Ltac blank_cases u p :=
  let Hu := fresh "Hu" in
  let Hp := fresh "Hp" in
  destruct (decide (strip u = [])) as [Hu|Hu];
  [rewrite (bool_decide_eq_true_2 _ Hu)
  |rewrite (bool_decide_eq_false_2 _ Hu);
   destruct (decide (strip p = [])) as [Hp|Hp];
   [rewrite (bool_decide_eq_true_2 _ Hp)
   |rewrite (bool_decide_eq_false_2 _ Hp)]];
  cbn [orb].

(** * Facts about strings *)

Lemma lstrip_no_lead s : no_lead (lstrip s).
Proof.
  induction s as [|c s IH]; simpl; [done|].
  destruct (is_space c) eqn:E; [done|]. simpl. done.
Qed.

Lemma lstrip_fixed s : no_lead s → lstrip s = s.
Proof. destruct s as [|c s]; simpl; [done|]. by intros ->. Qed.

Lemma lstrip_suffix s : ∃ k, s = k ++ lstrip s.
Proof.
  induction s as [|c s [k IH]]; simpl; [by exists []|].
  destruct (is_space c); [|by exists []].
  exists (c :: k). simpl. by f_equal.
Qed.

Lemma rstrip_prefix s : ∃ k, s = rstrip s ++ k.
Proof.
  destruct (lstrip_suffix (reverse s)) as [k Hk].
  exists (reverse k). unfold rstrip.
  rewrite <- reverse_app, <- Hk. by rewrite reverse_involutive.
Qed.

Lemma rstrip_no_trail s : no_trail (rstrip s).
Proof.
  unfold no_trail, rstrip. rewrite reverse_involutive. apply lstrip_no_lead.
Qed.

Lemma rstrip_fixed s : no_trail s → rstrip s = s.
Proof.
  intros H. unfold rstrip. rewrite lstrip_fixed by done.
  apply reverse_involutive.
Qed.

Lemma rstrip_no_lead s : no_lead s → no_lead (rstrip s).
Proof.
  intros H. destruct (rstrip_prefix s) as [k Hk].
  destruct (rstrip s) as [|c r]; [done|].
  rewrite Hk in H. exact H.
Qed.

Lemma strip_no_lead s : no_lead (strip s).
Proof. apply rstrip_no_lead, lstrip_no_lead. Qed.

Lemma strip_no_trail s : no_trail (strip s).
Proof. apply rstrip_no_trail. Qed.

Lemma strip_fixed s : no_lead s → no_trail s → strip s = s.
Proof.
  intros H1 H2. unfold strip. rewrite lstrip_fixed by done.
  by apply rstrip_fixed.
Qed.

Lemma strip_idemp s : strip (strip s) = strip s.
Proof. apply strip_fixed; [apply strip_no_lead | apply strip_no_trail]. Qed.

(** What [strip] removes is whitespace only. *)
Lemma lstrip_spaces s : ∃ k, s = k ++ lstrip s ∧ Forall (λ c, is_space c = true) k.
Proof.
  induction s as [|c s (k & IH & Hk)]; simpl; [by exists []|].
  destruct (is_space c) eqn:E; [|by exists []].
  exists (c :: k). split; [simpl; by f_equal | by constructor].
Qed.

Lemma strip_spaces s :
  ∃ k1 k2, s = k1 ++ strip s ++ k2
    ∧ Forall (λ c, is_space c = true) k1 ∧ Forall (λ c, is_space c = true) k2.
Proof.
  destruct (lstrip_spaces s) as (k1 & H1 & Hk1).
  destruct (lstrip_spaces (reverse (lstrip s))) as (k2 & H2 & Hk2).
  exists k1, (reverse k2). split_and!; [|done|].
  - rewrite H1 at 1. f_equal. unfold strip, rstrip.
    rewrite <- reverse_app, <- H2. by rewrite reverse_involutive.
  - rewrite Forall_forall in *. intros c Hc. apply Hk2.
    by rewrite elem_of_reverse in Hc.
Qed.

(** A string that ends a line-feed is not the result of [strip]. *)
Lemma no_trail_last s c : no_trail (s ++ [c]) → is_space c = false.
Proof. unfold no_trail. rewrite reverse_app. simpl. done. Qed.

(** The order of [sorted]. *)
Lemma str_leb_refl a : str_leb a a = true.
Proof.
  induction a as [|x a IH]; simpl; [done|].
  by rewrite N.ltb_irrefl.
Qed.

Lemma str_leb_total a b : str_leb a b = true ∨ str_leb b a = true.
Proof.
  revert b. induction a as [|x a IH]; intros [|y b]; simpl; auto.
  destruct (N.ltb_spec x y), (N.ltb_spec y x); auto; lia.
Qed.

Lemma str_leb_antisym a b : str_leb a b = true → str_leb b a = true → a = b.
Proof.
  revert b. induction a as [|x a IH]; intros [|y b]; simpl; try done.
  destruct (N.ltb_spec x y), (N.ltb_spec y x); try done; try lia.
  intros H1 H2. f_equal; [lia | by apply IH].
Qed.

Lemma str_leb_trans a b c :
  str_leb a b = true → str_leb b c = true → str_leb a c = true.
Proof.
  revert b c. induction a as [|x a IH]; intros [|y b] [|z c]; simpl; try done.
  destruct (N.ltb_spec x y), (N.ltb_spec y z), (N.ltb_spec x z),
    (N.ltb_spec z x), (N.ltb_spec y x), (N.ltb_spec z y);
    try done; try lia.
  apply IH.
Qed.

Example strip_sample :
  strip (py "  u 1 ") = py "u 1"
  ∧ strip [160%N; 117%N; 49%N; 10%N; 8232%N] = py "u1"
  ∧ strip (py "   ") = [].
Proof. split_and!; vm_compute; reflexivity. Qed.

Example str_leb_sample :
  str_leb (py "u1") (py "u10") = true
  ∧ str_leb (py "u10") (py "u2") = true
  ∧ str_leb (py "a") (py "B") = false.
Proof. split_and!; vm_compute; reflexivity. Qed.

#[global] Instance str_le_total : Total str_le.
Proof. intros a b. apply str_leb_total. Qed.

#[global] Instance str_le_trans : Transitive str_le.
Proof. intros a b c. apply str_leb_trans. Qed.

#[global] Instance str_le_antisym : AntiSymm (=) str_le.
Proof. intros a b. apply str_leb_antisym. Qed.

#[global] Instance str_le_refl : Reflexive str_le.
Proof. intros a. apply str_leb_refl. Qed.

(** * Facts about app.py *)

Lemma visited_add_record idx u p u' p' :
  visited (add_record idx u p) u' p' ↔ visited idx u' p' ∨ (u' = u ∧ p' = p).
Proof.
  unfold visited, add_record.
  destruct (idx !! u) as [s|] eqn:E.
  - destruct (decide (u' = u)) as [->|Hne].
    + rewrite lookup_insert_eq. split.
      * intros (s' & [= <-] & Hp). apply elem_of_union in Hp as [Hp|Hp].
        -- left. eauto.
        -- right. split; [done|]. by apply elem_of_singleton in Hp.
      * intros [(s' & Hs' & Hp)|[_ ->]]; eexists; (split; [done|]).
        -- rewrite E in Hs'. injection Hs' as <-. set_solver.
        -- set_solver.
    + rewrite lookup_insert_ne by done. naive_solver.
  - destruct (decide (u' = u)) as [->|Hne].
    + rewrite lookup_insert_eq, E. split.
      * intros (s' & [= <-] & Hp). right. split; [done|].
        by apply elem_of_singleton in Hp.
      * intros [(s' & Hs' & _)|[_ ->]]; [done|].
        eexists. split; [done|]. set_solver.
    + rewrite lookup_insert_ne by done. naive_solver.
Qed.

Lemma record_of_blank u p t :
  strip u = [] ∨ strip p = [] → App.record_of [u; p; t] = None.
Proof.
  intros H. unfold App.record_of.
  destruct (decide (strip u = [])) as [Hu|Hu].
  - by rewrite (bool_decide_eq_true_2 _ Hu).
  - destruct H as [H|H]; [done|].
    rewrite (bool_decide_eq_true_2 _ H). by rewrite orb_true_r.
Qed.

Lemma record_of_Some r u p :
  App.record_of r = Some (u, p) ↔
  ∃ a b t, r = [a; b; t] ∧ strip a = u ∧ strip b = p ∧ u ≠ [] ∧ p ≠ [].
Proof.
  split.
  - row_cases r; try done. unfold App.record_of.
    blank_cases u0 p0; try done.
    intros [= <- <-]. eauto 10.
  - intros (a & b & t & -> & <- & <- & Hu & Hp). unfold App.record_of.
    by rewrite (bool_decide_eq_false_2 _ Hu), (bool_decide_eq_false_2 _ Hp).
Qed.

(** One turn of the loop of [build_day1_index], on a row of three fields. *)
Lemma build_loop_cons path n u p t rows idx :
  App.build_loop path n ([u; p; t] :: rows) idx =
  App.build_loop path (S n) rows
    (match App.record_of [u; p; t] with
     | Some (u', p') => add_record idx u' p'
     | None => idx
     end).
Proof.
  cbn [App.build_loop App.record_of].
  destruct (bool_decide (strip u = []) || bool_decide (strip p = [])); [done|].
  unfold add_record. by destruct (idx !! strip u).
Qed.

Lemma build_loop_bad path n r rows idx :
  ¬ three_fields r →
  App.build_loop path n (r :: rows) idx =
  Raise (ValueError_columns path n (length r) r).
Proof. unfold three_fields. row_cases r; simpl; done. Qed.

Lemma three_fields_inv r : three_fields r → ∃ u p t, r = [u; p; t].
Proof. unfold three_fields. row_cases r; simpl; try done. eauto. Qed.

(** The pairs recorded by the index that [build_day1_index] returns. *)
Lemma build_loop_visited path n rows idx idx' :
  App.build_loop path n rows idx = Ok idx' →
  ∀ u p, visited idx' u p ↔ visited idx u p ∨ (u, p) ∈ App.records rows.
Proof.
  revert n idx. induction rows as [|r rows IH]; intros n idx H u p.
  - injection H as <-. unfold App.records. simpl. set_solver.
  - destruct (decide (three_fields r)) as [Hr|Hr].
    2:{ by rewrite build_loop_bad in H. }
    destruct (three_fields_inv r Hr) as (a & b & t & ->).
    rewrite build_loop_cons in H. apply IH with (u := u) (p := p) in H.
    rewrite H. unfold App.records. cbn [omap list_omap].
    fold (omap App.record_of rows).
    destruct (App.record_of [a; b; t]) as [[u' p']|].
    + rewrite visited_add_record, elem_of_cons. naive_solver.
    + done.
Qed.

Lemma build_loop_nonempty path n rows idx idx' :
  App.build_loop path n rows idx = Ok idx' →
  (∀ u s, idx !! u = Some s → s ≠ ∅) →
  ∀ u s, idx' !! u = Some s → s ≠ ∅.
Proof.
  revert n idx. induction rows as [|r rows IH]; intros n idx H Hne.
  - by injection H as <-.
  - destruct (decide (three_fields r)) as [Hr|Hr].
    2:{ by rewrite build_loop_bad in H. }
    destruct (three_fields_inv r Hr) as (a & b & t & ->).
    rewrite build_loop_cons in H. eapply IH; [exact H|].
    destruct (App.record_of [a; b; t]) as [[u' p']|]; [|done].
    unfold add_record. intros u s.
    destruct (idx !! u') as [s'|] eqn:E;
      (destruct (decide (u = u')) as [->|Hu];
       [rewrite lookup_insert_eq; intros [= <-]; set_solver
       |rewrite lookup_insert_ne by done; apply Hne]).
Qed.

(** The first row that does not have three fields stops the loop. *)
Lemma build_loop_first_bad path n pre r post idx :
  Forall three_fields pre → ¬ three_fields r →
  App.build_loop path n (pre ++ r :: post) idx =
  Raise (ValueError_columns path (n + length pre) (length r) r).
Proof.
  intros Hpre Hr. revert n idx.
  induction Hpre as [|x pre Hx _ IH]; intros n idx; simpl app.
  - rewrite build_loop_bad by done. do 2 f_equal. simpl. lia.
  - destruct (three_fields_inv x Hx) as (a & b & t & ->).
    rewrite build_loop_cons, IH. do 2 f_equal. simpl. lia.
Qed.

Lemma build_loop_all_good path n rows idx :
  Forall three_fields rows → ∃ idx', App.build_loop path n rows idx = Ok idx'.
Proof.
  intros H. revert n idx. induction H as [|x rows Hx _ IH]; intros n idx.
  - by eexists.
  - destruct (three_fields_inv x Hx) as (a & b & t & ->).
    rewrite build_loop_cons. apply IH.
Qed.

Lemma build_loop_Ok_good path n rows idx idx' :
  App.build_loop path n rows idx = Ok idx' → Forall three_fields rows.
Proof.
  revert n idx. induction rows as [|r rows IH]; intros n idx H; [done|].
  destruct (decide (three_fields r)) as [Hr|Hr].
  2:{ by rewrite build_loop_bad in H. }
  constructor; [done|].
  destruct (three_fields_inv r Hr) as (a & b & t & ->).
  rewrite build_loop_cons in H. by eapply IH.
Qed.

(** One turn of the loop of [find_target_users], on a row of three fields. *)
Lemma find_loop_cons idx path n u p t rows result :
  App.find_loop idx path n ([u; p; t] :: rows) result =
  App.find_loop idx path (S n) rows
    (match App.record_of [u; p; t] with
     | Some (u', p') => check_record idx result u' p'
     | None => result
     end).
Proof.
  cbn [App.find_loop App.record_of].
  destruct (bool_decide (strip u = []) || bool_decide (strip p = [])); [done|].
  unfold check_record. destruct (idx !! strip u) as [seen|]; [|done].
  destruct (bool_decide (strip u ∈ result)); [done|].
  by destruct (bool_decide (strip p ∉ seen)).
Qed.

Lemma find_loop_always_cons idx path n u p t rows result :
  App.find_loop_without_short_circuit idx path n ([u; p; t] :: rows) result =
  App.find_loop_without_short_circuit idx path (S n) rows
    (match App.record_of [u; p; t] with
     | Some (u', p') => check_record_always idx result u' p'
     | None => result
     end).
Proof.
  cbn [App.find_loop_without_short_circuit App.record_of].
  destruct (bool_decide (strip u = []) || bool_decide (strip p = [])); [done|].
  unfold check_record_always. destruct (idx !! strip u) as [seen|]; [|done].
  by destruct (bool_decide (strip p ∉ seen)).
Qed.

Lemma find_loop_bad idx path n r rows result :
  ¬ three_fields r →
  App.find_loop idx path n (r :: rows) result =
  Raise (ValueError_columns path n (length r) r).
Proof. unfold three_fields. row_cases r; simpl; done. Qed.

Lemma find_loop_always_bad idx path n r rows result :
  ¬ three_fields r →
  App.find_loop_without_short_circuit idx path n (r :: rows) result =
  Raise (ValueError_columns path n (length r) r).
Proof. unfold three_fields. row_cases r; simpl; done. Qed.

(** Skipping the membership check for a user already in the result changes
    nothing: the check could only add that user again. *)
Lemma check_record_short_circuit idx result u p :
  check_record idx result u p = check_record_always idx result u p.
Proof.
  unfold check_record, check_record_always.
  destruct (idx !! u) as [s|]; [|done].
  destruct (decide (u ∈ result)) as [Hin|Hin].
  - rewrite (bool_decide_eq_true_2 _ Hin).
    destruct (bool_decide (p ∉ s)); [|done]. set_solver.
  - by rewrite (bool_decide_eq_false_2 _ Hin).
Qed.

Lemma elem_of_check_record idx result u p u' :
  u' ∈ check_record idx result u p ↔
  u' ∈ result ∨ (u' = u ∧ ∃ s, idx !! u = Some s ∧ p ∉ s).
Proof.
  rewrite check_record_short_circuit. unfold check_record_always.
  destruct (idx !! u) as [s|]; [|naive_solver].
  destruct (decide (p ∉ s)) as [Hp|Hp].
  - rewrite (bool_decide_eq_true_2 _ Hp). set_solver.
  - rewrite (bool_decide_eq_false_2 _ Hp). naive_solver.
Qed.

(** The users in the set that [find_target_users] returns. *)
Lemma find_loop_elem_of idx path n rows result result' :
  App.find_loop idx path n rows result = Ok result' →
  ∀ u, u ∈ result' ↔
       u ∈ result ∨ ∃ s p, idx !! u = Some s ∧ (u, p) ∈ App.records rows ∧ p ∉ s.
Proof.
  revert n result. induction rows as [|r rows IH]; intros n result H u.
  - injection H as <-. unfold App.records. simpl. set_solver.
  - destruct (decide (three_fields r)) as [Hr|Hr].
    2:{ by rewrite find_loop_bad in H. }
    destruct (three_fields_inv r Hr) as (a & b & t & ->).
    rewrite find_loop_cons in H. apply IH with (u := u) in H.
    rewrite H. unfold App.records. cbn [omap list_omap].
    fold (omap App.record_of rows).
    destruct (App.record_of [a; b; t]) as [[u' p']|].
    + rewrite elem_of_check_record. setoid_rewrite elem_of_cons.
      split.
      * intros [[?|[-> (s & Hs & Hp)]]|(s & p & ? & ? & ?)]; eauto 10.
      * intros [?|(s & p & Hs & [[= -> ->]|?] & Hp)]; eauto 10.
    + done.
Qed.

Lemma find_loop_first_bad idx path n pre r post result :
  Forall three_fields pre → ¬ three_fields r →
  App.find_loop idx path n (pre ++ r :: post) result =
  Raise (ValueError_columns path (n + length pre) (length r) r).
Proof.
  intros Hpre Hr. revert n result.
  induction Hpre as [|x pre Hx _ IH]; intros n result; simpl app.
  - rewrite find_loop_bad by done. do 2 f_equal. simpl. lia.
  - destruct (three_fields_inv x Hx) as (a & b & t & ->).
    rewrite find_loop_cons, IH. do 2 f_equal. simpl. lia.
Qed.

Lemma find_loop_all_good idx path n rows result :
  Forall three_fields rows →
  ∃ result', App.find_loop idx path n rows result = Ok result'.
Proof.
  intros H. revert n result. induction H as [|x rows Hx _ IH]; intros n result.
  - by eexists.
  - destruct (three_fields_inv x Hx) as (a & b & t & ->).
    rewrite find_loop_cons. apply IH.
Qed.

Lemma find_loop_Ok_good idx path n rows result result' :
  App.find_loop idx path n rows result = Ok result' → Forall three_fields rows.
Proof.
  revert n result. induction rows as [|r rows IH]; intros n result H; [done|].
  destruct (decide (three_fields r)) as [Hr|Hr].
  2:{ by rewrite find_loop_bad in H. }
  constructor; [done|].
  destruct (three_fields_inv r Hr) as (a & b & t & ->).
  rewrite find_loop_cons in H. by eapply IH.
Qed.

(** The path and the row numbers only show in the exception. *)
Lemma build_loop_value path n path' n' rows idx :
  value (App.build_loop path n rows idx) = value (App.build_loop path' n' rows idx).
Proof.
  revert n n' idx. induction rows as [|r rows IH]; intros n n' idx; [done|].
  destruct (decide (three_fields r)) as [Hr|Hr].
  - destruct (three_fields_inv r Hr) as (a & b & t & ->).
    rewrite !build_loop_cons. apply IH.
  - by rewrite !build_loop_bad.
Qed.

Lemma find_loop_value idx path n path' n' rows result :
  value (App.find_loop idx path n rows result)
  = value (App.find_loop idx path' n' rows result).
Proof.
  revert n n' result. induction rows as [|r rows IH]; intros n n' result; [done|].
  destruct (decide (three_fields r)) as [Hr|Hr].
  - destruct (three_fields_inv r Hr) as (a & b & t & ->).
    rewrite !find_loop_cons. apply IH.
  - by rewrite !find_loop_bad.
Qed.

Lemma find_loop_short_circuit idx path n rows result :
  App.find_loop idx path n rows result
  = App.find_loop_without_short_circuit idx path n rows result.
Proof.
  revert n result. induction rows as [|r rows IH]; intros n result; [done|].
  destruct (decide (three_fields r)) as [Hr|Hr].
  - destruct (three_fields_inv r Hr) as (a & b & t & ->).
    rewrite find_loop_cons, find_loop_always_cons, IH.
    destruct (App.record_of [a; b; t]) as [[u p]|]; [|done].
    by rewrite check_record_short_circuit.
  - by rewrite find_loop_bad, find_loop_always_bad.
Qed.

(** * Facts about main.py *)

Lemma visits_get_add v u p u' :
  Main.visits_get (Main.visits_add v u p) u' =
  if bool_decide (u' = u)
  then Some (default ∅ (Main.visits_get v u) ∪ {[p]})
  else Main.visits_get v u'.
Proof.
  induction v as [|[k s] v IH]; simpl.
  - destruct (decide (u' = u)) as [->|Hne].
    + by rewrite !bool_decide_eq_true_2.
    + rewrite !bool_decide_eq_false_2; [done|done|congruence].
  - destruct (decide (k = u)) as [->|Hk].
    + rewrite !(bool_decide_eq_true_2 (u = u)) by done. simpl.
      destruct (decide (u' = u)) as [->|Hne].
      * by rewrite !bool_decide_eq_true_2.
      * rewrite !(bool_decide_eq_false_2 (u = u')) by congruence.
        by rewrite bool_decide_eq_false_2.
    + rewrite !(bool_decide_eq_false_2 (k = u)) by done. simpl.
      destruct (decide (k = u')) as [->|Hk'].
      * rewrite !(bool_decide_eq_true_2 (u' = u')) by done.
        by rewrite bool_decide_eq_false_2.
      * rewrite !(bool_decide_eq_false_2 (k = u')) by done. apply IH.
Qed.

Lemma mvisited_add v u p u' p' :
  mvisited (Main.visits_add v u p) u' p' ↔ mvisited v u' p' ∨ (u' = u ∧ p' = p).
Proof.
  unfold mvisited. rewrite visits_get_add.
  destruct (decide (u' = u)) as [->|Hne].
  - rewrite bool_decide_eq_true_2 by done.
    destruct (Main.visits_get v u) as [s|]; simpl.
    + split.
      * intros (? & [= <-] & Hp). set_solver.
      * intros [(? & [= <-] & Hp)|[_ ->]]; eexists; (split; [done|set_solver]).
    + split.
      * intros (? & [= <-] & Hp). set_solver.
      * intros [(? & ? & _)|[_ ->]]; [done|].
        eexists; (split; [done|set_solver]).
  - rewrite bool_decide_eq_false_2 by done. naive_solver.
Qed.

Lemma visits_get_keys (v : Main.visit_map) u :
  is_Some (Main.visits_get v u) ↔ u ∈ v.*1.
Proof.
  induction v as [|[k s] v IH]; simpl.
  - split; [by intros [? ?]|by intros ?%elem_of_nil].
  - rewrite elem_of_cons. destruct (decide (k = u)) as [->|Hk].
    + rewrite bool_decide_eq_true_2 by done. naive_solver.
    + rewrite bool_decide_eq_false_2 by done. naive_solver.
Qed.

Lemma visits_add_keys (v : Main.visit_map) u p :
  (Main.visits_add v u p).*1 = if bool_decide (u ∈ v.*1) then v.*1 else v.*1 ++ [u].
Proof.
  induction v as [|[k s] v IH].
  - case_bool_decide as H; [by apply elem_of_nil in H|done].
  - cbn [Main.visits_add]. rewrite (fmap_cons fst (k, s) v). cbn [fst].
    destruct (decide (k = u)) as [->|Hk].
    + rewrite (bool_decide_eq_true_2 (u = u)) by done.
      rewrite fmap_cons. cbn [fst].
      rewrite bool_decide_eq_true_2; [done|by left].
    + rewrite (bool_decide_eq_false_2 (k = u)) by done.
      rewrite fmap_cons. cbn [fst]. rewrite IH.
      destruct (decide (u ∈ v.*1)) as [Hin|Hin].
      * rewrite (bool_decide_eq_true_2 _ Hin).
        rewrite bool_decide_eq_true_2; [done|by right].
      * rewrite (bool_decide_eq_false_2 _ Hin).
        rewrite bool_decide_eq_false_2; [done|].
        rewrite elem_of_cons. naive_solver.
Qed.

Lemma load_loop_cons u p t rows v :
  Main.load_loop ([u; p; t] :: rows) v = Main.load_loop rows (Main.visits_add v u p).
Proof. done. Qed.

Lemma load_loop_bad r rows v :
  ¬ three_fields r →
  Main.load_loop (r :: rows) v = Raise (ValueError_unpack (length r)).
Proof. unfold three_fields. row_cases r; simpl; done. Qed.

Lemma main_records_cons u p t rows :
  Main.records ([u; p; t] :: rows) = (u, p) :: Main.records rows.
Proof. done. Qed.

(** The pairs held by the mapping that [load_visits] returns. *)
Lemma load_loop_visited rows v v' :
  Main.load_loop rows v = Ok v' →
  ∀ u p, mvisited v' u p ↔ mvisited v u p ∨ (u, p) ∈ Main.records rows.
Proof.
  revert v. induction rows as [|r rows IH]; intros v H u p.
  - injection H as <-. unfold Main.records. simpl. set_solver.
  - destruct (decide (three_fields r)) as [Hr|Hr].
    2:{ by rewrite load_loop_bad in H. }
    destruct (three_fields_inv r Hr) as (a & b & t & ->).
    rewrite load_loop_cons in H. apply IH with (u := u) (p := p) in H.
    rewrite H, main_records_cons, mvisited_add, elem_of_cons. naive_solver.
Qed.

(** Its keys, in iteration order. *)
Lemma load_loop_keys (rows : file) (v v' : Main.visit_map) :
  Main.load_loop rows v = Ok v' →
  v'.*1 = first_seen (v.*1) ((Main.records rows).*1).
Proof.
  revert v. induction rows as [|r rows IH]; intros v H.
  - by injection H as <-.
  - destruct (decide (three_fields r)) as [Hr|Hr].
    2:{ by rewrite load_loop_bad in H. }
    destruct (three_fields_inv r Hr) as (a & b & t & ->).
    rewrite load_loop_cons in H. apply IH in H.
    rewrite H, main_records_cons, visits_add_keys. simpl.
    by destruct (bool_decide (a ∈ v.*1)).
Qed.

Lemma load_loop_nonempty rows v v' :
  Main.load_loop rows v = Ok v' →
  (∀ u s, Main.visits_get v u = Some s → s ≠ ∅) →
  ∀ u s, Main.visits_get v' u = Some s → s ≠ ∅.
Proof.
  revert v. induction rows as [|r rows IH]; intros v H Hne.
  - by injection H as <-.
  - destruct (decide (three_fields r)) as [Hr|Hr].
    2:{ by rewrite load_loop_bad in H. }
    destruct (three_fields_inv r Hr) as (a & b & t & ->).
    rewrite load_loop_cons in H. eapply IH; [exact H|].
    intros u s. rewrite visits_get_add.
    destruct (bool_decide (u = a)); [|apply Hne].
    intros [= <-]. set_solver.
Qed.

Lemma select_loop_cons day1 day2 u users acc :
  Main.select_loop day1 day2 (u :: users) acc
  = Main.select_loop day1 day2 users
      (if qualifies day1 day2 u then acc ++ [u] else acc).
Proof.
  cbn [Main.select_loop]. unfold qualifies.
  destruct (Main.visits_get day2 u) as [s2|]; [|done].
  by destruct (bool_decide (s2 ∖ default ∅ (Main.visits_get day1 u) ≠ ∅)).
Qed.

(** The first loop of [main] keeps the qualifying keys of [day1], in order. *)
Lemma select_loop_filter day1 day2 users acc :
  Main.select_loop day1 day2 users acc
  = acc ++ filter (λ u, qualifies day1 day2 u = true) users.
Proof.
  revert acc. induction users as [|u users IH]; intros acc.
  - simpl. by rewrite app_nil_r.
  - rewrite select_loop_cons, IH, filter_cons.
    destruct (qualifies day1 day2 u) eqn:E.
    + rewrite decide_True by done. by rewrite <- app_assoc.
    + by rewrite decide_False.
Qed.

Lemma qualifies_true day1 day2 u :
  qualifies day1 day2 u = true ↔
  ∃ s2 p, Main.visits_get day2 u = Some s2 ∧ p ∈ s2
          ∧ p ∉ default ∅ (Main.visits_get day1 u).
Proof.
  unfold qualifies. destruct (Main.visits_get day2 u) as [s2|].
  - rewrite bool_decide_eq_true. split.
    + intros H. apply set_choose_L in H as [p Hp]. exists s2, p. set_solver.
    + intros (? & p & [= <-] & ? & ?). set_solver.
  - naive_solver.
Qed.

(** * Facts about app.py on the object store *)

Section store_facts.
Import AppStore.

Lemma bind_run {A B} (m : M A) (k : A → M B) h :
  (m ≫= k) h = match m h with (Ok a, h') => k a h' | (Raise e, h') => (Raise e, h') end.
Proof. reflexivity. Qed.

Lemma build_loop_cons_blank path d n u p t rows h :
  App.record_of [u; p; t] = None ->
  build_loop path d n ([u; p; t] :: rows) h = build_loop path d (S n) rows h.
Proof.
  unfold App.record_of. cbn [build_loop].
  destruct (bool_decide (strip u = []) || bool_decide (strip p = [])); done.
Qed.

Lemma build_loop_cons_new path d n u p t rows h m u' p' :
  App.record_of [u; p; t] = Some (u', p') ->
  h !! d = Some (ODict m) -> 
  m !! u' = None ->
  build_loop path d n ([u; p; t] :: rows) h = 
  let l := fresh (dom h) in
  build_loop path d (S n) rows (<[l := OSet (∅ ∪ {[p']})]> (<[d := ODict (<[u' := l]> m)]> (<[l := OSet ∅]> h))).
Proof.
  unfold App.record_of. cbn [build_loop].
  destruct (bool_decide (strip u = []) || bool_decide (strip p = [])); [done|].
  intros [= <- <-] Hd Hu.
  assert (Hl : h !! fresh (dom h) = None).
  { apply not_elem_of_dom. apply is_fresh. }
  assert (Hne : fresh (dom h) ≠ d) by congruence.
  set (l := fresh (dom h)) in *.
  rewrite bind_run. unfold dict_get at 1. rewrite Hd, Hu.
  rewrite bind_run. rewrite bind_run. unfold new_set at 1. fold l.
  rewrite bind_run. unfold dict_setitem at 1.
  rewrite lookup_insert_ne, Hd by done.
  unfold mret at 1, M_ret at 1.
  rewrite bind_run. unfold set_add at 1.
  rewrite lookup_insert_ne, lookup_insert_eq by done.
  done.
Qed.

Lemma build_loop_cons_old path d n u p t rows h m u' p' l s :
  App.record_of [u; p; t] = Some (u', p') ->
  h !! d = Some (ODict m) -> 
  m !! u' = Some l ->
  h !! l = Some (OSet s) ->
  build_loop path d n ([u; p; t] :: rows) h = 
  build_loop path d (S n) rows (<[l := OSet (s ∪ {[p']})]> h).
Proof.
  unfold App.record_of. cbn [build_loop].
  destruct (bool_decide (strip u = []) || bool_decide (strip p = [])); [done|].
  intros [= <- <-] Hd Hu Hl.
  rewrite bind_run. unfold dict_get at 1. rewrite Hd, Hu.
  rewrite bind_run. unfold mret at 1, M_ret at 1.
  rewrite bind_run. unfold set_add at 1. rewrite Hl. done.
Qed.

Lemma build_loop_cons_bad path d n r rows h :
  ¬ three_fields r →
  build_loop path d n (r :: rows) h = (Raise (ValueError_columns path n (length r) r), h).
Proof. unfold three_fields. row_cases r; simpl; done. Qed.

Lemma set_at_insert_set h l s l' :
  set_at (<[l := OSet s]> h) l' = if decide (l = l') then Some s else set_at h l'.
Proof.
  unfold set_at. rewrite lookup_insert. by destruct (decide (l = l')).
Qed.

Lemma dict_ok_add_old h d m u l s p :
  dict_ok h d m → m !! u = Some l → h !! l = Some (OSet s) →
  dict_ok (<[l := OSet (s ∪ {[p]})]> h) d m
  ∧ omap (set_at (<[l := OSet (s ∪ {[p]})]> h)) m
    = add_record (omap (set_at h) m) u p.
Proof.
  intros (Hd & Hv & Hinj) Hu Hl.
  assert (l ≠ d) by congruence.
  split.
  - split_and!; [by rewrite lookup_insert_ne| |done].
    intros u' l' Hu'. rewrite set_at_insert_set.
    destruct (decide (l = l')); [done|]. eauto.
  - unfold add_record. rewrite lookup_omap, Hu. simpl.
    unfold set_at at 2. rewrite Hl.
    apply map_eq. intros u'. rewrite lookup_omap.
    destruct (decide (u' = u)) as [->|Hne].
    + rewrite lookup_insert_eq, Hu. simpl. rewrite set_at_insert_set.
      by rewrite decide_True.
    + rewrite lookup_insert_ne, lookup_omap by done.
      destruct (m !! u') as [l'|] eqn:E; [|done]. simpl.
      rewrite set_at_insert_set, decide_False; [done|].
      intros <-. apply Hne. by eapply Hinj.
Qed.

Lemma dict_ok_add_new h d m u p :
  dict_ok h d m → m !! u = None →
  let l := fresh (dom h) in
  let h' := <[l := OSet (∅ ∪ {[p]})]> (<[d := ODict (<[u := l]> m)]> (<[l := OSet ∅]> h)) in
  dict_ok h' d (<[u := l]> m)
  ∧ omap (set_at h') (<[u := l]> m) = add_record (omap (set_at h) m) u p.
Proof.
  intros (Hd & Hv & Hinj) Hu l h'.
  assert (Hl : h !! l = None).
  { apply not_elem_of_dom. apply is_fresh. }
  assert (Hne : l ≠ d) by congruence.
  assert (Hother : ∀ l', l' ≠ l → set_at h' l' = set_at h l').
  { intros l' Hl'. unfold h'. rewrite set_at_insert_set, decide_False by done.
    unfold set_at. destruct (decide (l' = d)) as [->|Hd'].
    - by rewrite lookup_insert_eq, Hd.
    - by rewrite !lookup_insert_ne. }
  assert (Hrange : ∀ u' l', m !! u' = Some l' → l' ≠ l).
  { intros u' l' Hu' ->. apply Hv in Hu' as [s Hs].
    unfold set_at in Hs. by rewrite Hl in Hs. }
  split.
  - split_and!.
    + unfold h'. rewrite lookup_insert_ne, lookup_insert_eq; done.
    + intros u' l'. destruct (decide (u' = u)) as [->|Hu'].
      * rewrite lookup_insert_eq. intros [= <-]. unfold h'.
        rewrite set_at_insert_set, decide_True; done.
      * rewrite lookup_insert_ne by done. intros Hm.
        rewrite Hother; eauto.
    + intros a b x. 
      destruct (decide (a = u)) as [->|Ha], (decide (b = u)) as [->|Hb];
        rewrite ?lookup_insert_eq, ?lookup_insert_ne by done; try done.
      * intros [= <-] Hb'. by apply Hrange in Hb'.
      * intros Ha' [= <-]. by apply Hrange in Ha'.
      * apply Hinj.
  - unfold add_record. rewrite lookup_omap, Hu. simpl.
    apply map_eq. intros u'. rewrite lookup_omap.
    destruct (decide (u' = u)) as [->|Hu'].
    + rewrite !lookup_insert_eq. simpl. unfold h'.
      rewrite set_at_insert_set, decide_True by done. f_equal. set_solver.
    + rewrite !lookup_insert_ne, lookup_omap by done.
      destruct (m !! u') as [l'|] eqn:E; [|done]. simpl.
      apply Hother. eauto.
Qed.

Lemma build_loop_sim path d n rows h m :
  dict_ok h d m →
  match App.build_loop path n rows (omap (set_at h) m) with
  | Ok ix => ∃ h' m', build_loop path d n rows h = (Ok (), h')
                     ∧ dict_ok h' d m' ∧ omap (set_at h') m' = ix
  | Raise e => ∃ h', build_loop path d n rows h = (Raise e, h')
  end.
Proof.
  revert n h m. induction rows as [|r rows IH]; intros n h m Hok.
  - simpl. eauto.
  - destruct (decide (three_fields r)) as [Hr|Hr].
    2:{ rewrite build_loop_bad, build_loop_cons_bad by done. eauto. }
    destruct (three_fields_inv r Hr) as (a & b & t & ->).
    rewrite build_loop_cons.
    destruct (App.record_of [a; b; t]) as [[u p]|] eqn:Hrec.
    + destruct (m !! u) as [l|] eqn:Hu.
      * destruct Hok as (Hd & Hv & Hinj).
        destruct (Hv u l Hu) as [s Hs]. unfold set_at in Hs.
        destruct (h !! l) as [[|s']|] eqn:Hl; try done.
        injection Hs as ->.
        erewrite build_loop_cons_old by done.
        destruct (dict_ok_add_old h d m u l s p) as [Hok' <-]; [done..|].
        by apply IH.
      * destruct Hok as (Hd & Hv & Hinj).
        erewrite build_loop_cons_new by done. cbv zeta.
        destruct (dict_ok_add_new h d m u p) as [Hok' <-]; [done..|].
        by apply IH.
    + rewrite build_loop_cons_blank by done. by apply IH.
Qed.

Lemma build_day1_index_sim path rows h :
  match App.build_day1_index path rows with
  | Ok ix => ∃ d h' m', build_day1_index path rows h = (Ok d, h')
                       ∧ dict_ok h' d m' ∧ omap (set_at h') m' = ix
  | Raise e => ∃ h', build_day1_index path rows h = (Raise e, h')
  end.
Proof.
  unfold App.build_day1_index, build_day1_index.
  set (d := fresh (dom h)).
  assert (Hok : dict_ok (<[d := ODict ∅]> h) d ∅).
  { split_and!; [by rewrite lookup_insert_eq|done..]. }
  pose proof (build_loop_sim path d 1 rows _ _ Hok) as H.
  rewrite omap_empty in H.
  rewrite bind_run. unfold new_dict. fold d. rewrite bind_run.
  destruct (App.build_loop path 1 rows ∅) as [ix|e].
  - destruct H as (h' & m' & H & ? & ?). exists d, h', m'. by rewrite H.
  - destruct H as (h' & H). exists h'. by rewrite H.
Qed.

Lemma dict_ok_insert_other h idx m r res :
  dict_ok h idx m → r ≠ idx → (∀ u, m !! u ≠ Some r) →
  dict_ok (<[r := OSet res]> h) idx m
  ∧ omap (set_at (<[r := OSet res]> h)) m = omap (set_at h) m.
Proof.
  intros (Hd & Hv & Hinj) Hr Hm.
  assert (Hother : ∀ u l, m !! u = Some l →
            set_at (<[r := OSet res]> h) l = set_at h l).
  { intros u l Hu. rewrite set_at_insert_set, decide_False; [done|].
    intros ->. by eapply Hm. }
  split.
  - split_and!; [by rewrite lookup_insert_ne| |done].
    intros u l Hu. rewrite (Hother u l Hu). eauto.
  - apply map_eq. intros u. rewrite !lookup_omap.
    destruct (m !! u) as [l|] eqn:E; [|done]. simpl. eauto.
Qed.

Lemma dict_ok_fresh h idx m :
  dict_ok h idx m →
  fresh (dom h) ≠ idx ∧ ∀ u, m !! u ≠ Some (fresh (dom h)).
Proof.
  intros (Hd & Hv & Hinj).
  assert (Hl : h !! fresh (dom h) = None).
  { apply not_elem_of_dom. apply is_fresh. }
  split; [congruence|].
  intros u Hu. apply Hv in Hu as [s Hs].
  unfold set_at in Hs. by rewrite Hl in Hs.
Qed.

Lemma find_loop_cons_store idx path r n u p t rows h m res :
  dict_ok h idx m → h !! r = Some (OSet res) →
  find_loop idx path r n ([u; p; t] :: rows) h =
  find_loop idx path r (S n) rows
    (<[r := OSet (match App.record_of [u; p; t] with
                  | Some (u', p') => check_record (omap (set_at h) m) res u' p'
                  | None => res
                  end)]> h).
Proof.
  intros (Hd & Hv & Hinj) Hr.
  unfold App.record_of. cbn [find_loop].
  destruct (bool_decide (strip u = []) || bool_decide (strip p = [])).
  { by rewrite insert_id. }
  rewrite bind_run. unfold dict_get at 1. rewrite Hd.
  unfold check_record. rewrite lookup_omap.
  destruct (m !! strip u) as [l|] eqn:Hu; simpl.
  2:{ by rewrite insert_id. }
  destruct (Hv _ _ Hu) as [s Hs]. rewrite Hs.
  unfold set_at in Hs. destruct (h !! l) as [[|s']|] eqn:Hl; try done.
  injection Hs as ->.
  rewrite bind_run. unfold set_contains at 1. rewrite Hr.
  destruct (bool_decide (strip u ∈ res)).
  { by rewrite insert_id. }
  rewrite bind_run. unfold set_contains at 1. rewrite Hl.
  destruct (decide (strip p ∈ s)) as [Hp|Hp].
  - rewrite (bool_decide_eq_true_2 _ Hp). simpl.
    rewrite bool_decide_eq_false_2 by (by intros ?). by rewrite insert_id.
  - rewrite (bool_decide_eq_false_2 _ Hp). simpl.
    rewrite bool_decide_eq_true_2 by done.
    rewrite bind_run. unfold set_add at 1. rewrite Hr.
    by rewrite (union_comm_L res).
Qed.

Lemma find_loop_cons_store_bad idx path r n x rows h :
  ¬ three_fields x →
  find_loop idx path r n (x :: rows) h
  = (Raise (ValueError_columns path n (length x) x), h).
Proof. unfold three_fields. row_cases x; simpl; done. Qed.

Lemma find_loop_sim idx path r n rows h m res :
  dict_ok h idx m → h !! r = Some (OSet res) → (∀ u, m !! u ≠ Some r) →
  ∃ res',
    find_loop idx path r n rows h
    = (match App.find_loop (omap (set_at h) m) path n rows res with
       | Ok _ => Ok ()
       | Raise e => Raise e
       end, <[r := OSet res']> h)
    ∧ ∀ x, App.find_loop (omap (set_at h) m) path n rows res = Ok x → x = res'.
Proof.
  revert n h res. induction rows as [|x rows IH]; intros n h res Hok Hr Hm.
  - exists res. simpl. split; [by rewrite insert_id|congruence].
  - destruct (decide (three_fields x)) as [Hx|Hx].
    2:{ rewrite find_loop_bad, find_loop_cons_store_bad by done.
        exists res. split; [by rewrite insert_id|done]. }
    destruct (three_fields_inv x Hx) as (a & b & t & ->).
    rewrite find_loop_cons. erewrite find_loop_cons_store by done.
    set (res1 := match App.record_of [a; b; t] with
                 | Some (u', p') => check_record (omap (set_at h) m) res u' p'
                 | None => res
                 end).
    assert (r ≠ idx) as Hne by (destruct Hok as (? & _); congruence).
    destruct (dict_ok_insert_other h idx m r res1 Hok Hne Hm) as [Hok1 Heq].
    destruct (IH (S n) (<[r := OSet res1]> h) res1 Hok1) as (res' & Hrun & Hres);
      [by rewrite lookup_insert_eq|done|].
    rewrite Heq in Hrun, Hres. rewrite insert_insert_eq in Hrun.
    exists res'. by split.
Qed.

(** The two functions of app.py on the store agree with the value model. *)
Lemma find_target_users_sim idx path rows h m :
  dict_ok h idx m →
  ∃ res',
    find_target_users idx path rows h
    = (match App.find_target_users (omap (set_at h) m) path rows with
       | Ok _ => Ok (fresh (dom h))
       | Raise e => Raise e
       end, <[fresh (dom h) := OSet res']> h)
    ∧ ∀ x, App.find_target_users (omap (set_at h) m) path rows = Ok x → x = res'.
Proof.
  intros Hok. destruct (dict_ok_fresh h idx m Hok) as [Hne Hm].
  set (r := fresh (dom h)) in *.
  destruct (dict_ok_insert_other h idx m r ∅ Hok Hne Hm) as [Hok1 Heq].
  destruct (find_loop_sim idx path r 1 rows (<[r := OSet ∅]> h) m ∅ Hok1)
    as (res' & Hrun & Hres); [by rewrite lookup_insert_eq|done|].
  rewrite Heq in Hrun, Hres. rewrite insert_insert_eq in Hrun.
  exists res'. split; [|done].
  unfold find_target_users, App.find_target_users.
  rewrite bind_run. unfold new_set. fold r. rewrite bind_run, Hrun.
  by destruct (App.find_loop (omap (set_at h) m) path 1 rows ∅).
Qed.

End store_facts.

(** * The result set *)

Lemma products_of_visited idx u p : p ∈ products_of idx u ↔ visited idx u p.
Proof.
  unfold products_of, visited. destruct (idx !! u) as [s|]; simpl.
  - naive_solver.
  - split; [set_solver|naive_solver].
Qed.

Lemma mproducts_of_visited v u p : p ∈ mproducts_of v u ↔ mvisited v u p.
Proof.
  unfold mproducts_of, mvisited. destruct (Main.visits_get v u) as [s|]; simpl.
  - naive_solver.
  - split; [set_solver|naive_solver].
Qed.

(** What [build_day1_index] returns holds exactly the pairs of the file. *)
Lemma build_day1_index_products path rows idx :
  App.build_day1_index path rows = Ok idx →
  ∀ u, (∀ p, p ∈ products_of idx u ↔ (u, p) ∈ App.records rows)
       ∧ (u ∈ dom idx ↔ ∃ p, (u, p) ∈ App.records rows).
Proof.
  intros H u.
  assert (Hv : ∀ p, visited idx u p ↔ (u, p) ∈ App.records rows).
  { intros p. rewrite (build_loop_visited _ _ _ _ _ H). unfold visited.
    rewrite lookup_empty. naive_solver. }
  split.
  - intros p. by rewrite products_of_visited.
  - rewrite elem_of_dom. split.
    + intros [s Hs].
      assert (s ≠ ∅) as Hne.
      { eapply (build_loop_nonempty _ _ _ _ _ H); [|exact Hs].
        intros ? ?. by rewrite lookup_empty. }
      apply set_choose_L in Hne as [p Hp]. exists p. apply Hv.
      by exists s.
    + intros [p Hp]. apply Hv in Hp as (s & Hs & _). by exists s.
Qed.

Lemma find_target_users_elem_of idx path rows result :
  App.find_target_users idx path rows = Ok result →
  ∀ u, u ∈ result ↔
       u ∈ dom idx ∧ ∃ p, (u, p) ∈ App.records rows ∧ p ∉ products_of idx u.
Proof.
  intros H u. rewrite (find_loop_elem_of _ _ _ _ _ _ H).
  rewrite elem_of_dom. unfold products_of. split.
  - intros [?|(s & p & Hs & Hp & Hn)]; [set_solver|].
    rewrite Hs. simpl. eauto.
  - intros ([s Hs] & p & Hp & Hn). rewrite Hs in Hn. right. eauto.
Qed.

Lemma load_visits_products hdr rows v :
  Main.load_visits (hdr :: rows) = Ok v →
  ∀ u, (∀ p, p ∈ mproducts_of v u ↔ (u, p) ∈ Main.records rows)
       ∧ (u ∈ v.*1 ↔ ∃ p, (u, p) ∈ Main.records rows).
Proof.
  intros H u. cbn [Main.load_visits] in H.
  assert (Hv : ∀ p, mvisited v u p ↔ (u, p) ∈ Main.records rows).
  { intros p. rewrite (load_loop_visited _ _ _ H). unfold mvisited. simpl.
    naive_solver. }
  split.
  - intros p. by rewrite mproducts_of_visited.
  - rewrite <- visits_get_keys. split.
    + intros [s Hs].
      assert (s ≠ ∅) as Hne.
      { eapply (load_loop_nonempty _ _ _ H); [|exact Hs]. by intros ? ?. }
      apply set_choose_L in Hne as [p Hp]. exists p. apply Hv.
      by exists s.
    + intros [p Hp]. apply Hv in Hp as (s & Hs & _). by exists s.
Qed.

Lemma result_users_filter day1 day2 :
  Main.result_users day1 day2
  = filter (λ u, qualifies day1 day2 u = true) (day1.*1).
Proof. unfold Main.result_users. by rewrite select_loop_filter. Qed.

Lemma result_users_elem_of day1 day2 u :
  u ∈ Main.result_users day1 day2 ↔
  u ∈ day1.*1 ∧ ∃ p, p ∈ mproducts_of day2 u ∧ p ∉ mproducts_of day1 u.
Proof.
  rewrite result_users_filter, list_elem_of_filter, qualifies_true.
  unfold mproducts_of. split.
  - intros [(s2 & p & Hs2 & Hp & Hn) Hu]. rewrite Hs2. simpl. eauto.
  - intros [Hu (p & Hp & Hn)]. split; [|done].
    destruct (Main.visits_get day2 u) as [s2|]; simpl in Hp; [eauto|set_solver].
Qed.

(** C1. In both programs a user of the result is a key of the day-one index
    and has a day-two product_id that is not in that user's day-one product
    set; a user whose day-two product_ids are all in the day-one set, and a
    user without a day-one entry, is not in the result.  The day-one index
    holds, for each user, the product_ids of that user's day-one rows.
    (app.py: identifiers trimmed, blank ones dropped; main.py: the rows after
    the first line, fields as they stand.) *)
Theorem result_has_new_product :
  (∀ day1 rows1 day2 rows2 idx result,
     App.build_day1_index day1 rows1 = Ok idx →
     App.find_target_users idx day2 rows2 = Ok result →
     ∀ u,
       (u ∈ result →
        u ∈ dom idx ∧ ∃ p, (u, p) ∈ App.records rows2 ∧ p ∉ products_of idx u)
       ∧ ((∀ p, (u, p) ∈ App.records rows2 → p ∈ products_of idx u) → u ∉ result)
       ∧ (u ∉ dom idx → u ∉ result)
       ∧ (∀ p, p ∈ products_of idx u ↔ (u, p) ∈ App.records rows1))
  ∧ (∀ hdr1 rows1 hdr2 rows2 day1 day2,
       Main.load_visits (hdr1 :: rows1) = Ok day1 →
       Main.load_visits (hdr2 :: rows2) = Ok day2 →
       ∀ u,
         (u ∈ Main.result_users day1 day2 →
          u ∈ day1.*1
          ∧ ∃ p, (u, p) ∈ Main.records rows2 ∧ p ∉ mproducts_of day1 u)
         ∧ ((∀ p, (u, p) ∈ Main.records rows2 → p ∈ mproducts_of day1 u) →
            u ∉ Main.result_users day1 day2)
         ∧ (u ∉ day1.*1 → u ∉ Main.result_users day1 day2)
         ∧ (∀ p, p ∈ mproducts_of day1 u ↔ (u, p) ∈ Main.records rows1)).
Proof.
  split.
  - intros day1 rows1 day2 rows2 idx result Hidx Hres u.
    pose proof (find_target_users_elem_of _ _ _ _ Hres u) as Hu.
    split_and!.
    + by intros ?%Hu.
    + intros Hall (_ & p & Hp & Hn)%Hu. by apply Hn, Hall.
    + intros Hn (Hd & _)%Hu. done.
    + apply (build_day1_index_products _ _ _ Hidx u).
  - intros hdr1 rows1 hdr2 rows2 day1 day2 H1 H2 u.
    pose proof (result_users_elem_of day1 day2 u) as Hu.
    destruct (load_visits_products _ _ _ H2 u) as [Hp2 _].
    split_and!.
    + intros (Hk & p & Hp & Hn)%Hu. split; [done|]. exists p.
      by rewrite <- Hp2.
    + intros Hall (_ & p & Hp & Hn)%Hu. apply Hn, Hall. by rewrite <- Hp2.
    + intros Hn (Hd & _)%Hu. done.
    + apply (load_visits_products _ _ _ H1 u).
Qed.

(** The theorem on the sample files. *)
Lemma result_has_new_product_witness :
  (u1 ∈ ({[u1]} : gset str) →
   u1 ∈ dom ({[u1 := {[pA; pB]}; u2 := {[pX]}]} : gmap str (gset str))
   ∧ ∃ p, (u1, p) ∈ App.records day2_rows
          ∧ p ∉ products_of {[u1 := {[pA; pB]}; u2 := {[pX]}]} u1)
  ∧ (u2 ∉ [(u1, ({[pA; pB]} : gset str)); (u2, {[pX]})].*1 →
     u2 ∉ Main.result_users [(u1, {[pA; pB]}); (u2, {[pX]})]
            [(u1, {[pA; pC]}); (u2, {[pX]})]).
Proof.
  split.
  - apply (proj1 result_has_new_product day1_csv day1_rows day2_csv day2_rows
             {[u1 := {[pA; pB]}; u2 := {[pX]}]} {[u1]}).
    + vm_compute. reflexivity.
    + vm_compute. reflexivity.
  - apply (proj2 result_has_new_product header day1_rows header day2_rows
             [(u1, {[pA; pB]}); (u2, {[pX]})] [(u1, {[pA; pC]}); (u2, {[pX]})]).
    + vm_compute. reflexivity.
    + vm_compute. reflexivity.
Defined.

(** * Rows that do not have three fields *)

Lemma load_loop_first_bad pre r post v :
  Forall three_fields pre → ¬ three_fields r →
  Main.load_loop (pre ++ r :: post) v = Raise (ValueError_unpack (length r)).
Proof.
  intros Hpre Hr. revert v.
  induction Hpre as [|x pre Hx _ IH]; intros v; simpl app.
  - by rewrite load_loop_bad.
  - destruct (three_fields_inv x Hx) as (a & b & t & ->).
    by rewrite load_loop_cons, IH.
Qed.

Lemma load_loop_all_good rows v :
  Forall three_fields rows → ∃ v', Main.load_loop rows v = Ok v'.
Proof.
  intros H. revert v. induction H as [|x rows Hx _ IH]; intros v.
  - by eexists.
  - destruct (three_fields_inv x Hx) as (a & b & t & ->).
    rewrite load_loop_cons. apply IH.
Qed.

Lemma target_users_Ok day1 rows1 day2 rows2 :
  is_Some (value (App.target_users day1 rows1 day2 rows2)) ↔
  Forall three_fields rows1 ∧ Forall three_fields rows2.
Proof.
  unfold App.target_users, App.build_day1_index, App.find_target_users.
  split.
  - destruct (App.build_loop day1 1 rows1 ∅) as [idx|e] eqn:H1; simpl.
    2:{ by intros [? ?]. }
    destruct (App.find_loop idx day2 1 rows2 ∅) as [result|e] eqn:H2; simpl.
    2:{ by intros [? ?]. }
    intros _. split.
    + by eapply build_loop_Ok_good.
    + by eapply find_loop_Ok_good.
  - intros [H1 H2].
    destruct (build_loop_all_good day1 1 rows1 ∅ H1) as [idx ->]. simpl.
    destruct (find_loop_all_good idx day2 1 rows2 ∅ H2) as [result ->]. simpl.
    by eexists.
Qed.

(** C2, as the code has it.  app.py: the first row of a file that does not
    have three fields makes [build_day1_index] and [find_target_users] raise
    an error carrying the path and the number of that row, counted from 1,
    and [main] writes a text only when every row of both files has three
    fields.  main.py: the first row after the first line that does not have
    three fields makes [load_visits] raise the unpacking error, which carries
    neither file nor line; the first line is dropped whatever its fields. *)
Theorem malformed_row_aborts :
  (∀ path pre r post,
     Forall three_fields pre → ¬ three_fields r →
     App.build_day1_index path (pre ++ r :: post)
     = Raise (ValueError_columns path (S (length pre)) (length r) r)
     ∧ ∀ idx, App.find_target_users idx path (pre ++ r :: post)
              = Raise (ValueError_columns path (S (length pre)) (length r) r))
  ∧ (∀ day1 rows1 day2 rows2,
       is_Some (App.text_of (App.main day1 (Some rows1) day2 (Some rows2))) ↔
       Forall three_fields rows1 ∧ Forall three_fields rows2)
  ∧ (∀ hdr pre r post,
       Forall three_fields pre → ¬ three_fields r →
       Main.load_visits (hdr :: pre ++ r :: post)
       = Raise (ValueError_unpack (length r)))
  ∧ (∀ hdr rows,
       Forall three_fields rows → ∃ v, Main.load_visits (hdr :: rows) = Ok v).
Proof.
  split_and!.
  - intros path pre r post Hpre Hr. split; [|intros idx].
    + unfold App.build_day1_index. by rewrite build_loop_first_bad.
    + unfold App.find_target_users. by rewrite find_loop_first_bad.
  - intros day1 rows1 day2 rows2.
    rewrite <- (target_users_Ok day1 rows1 day2 rows2).
    unfold App.main.
    destruct (App.target_users day1 rows1 day2 rows2); simpl.
    + split; intros _; by eexists.
    + split; by intros [? ?].
  - intros hdr pre r post Hpre Hr. cbn [Main.load_visits].
    by apply load_loop_first_bad.
  - intros hdr rows H. cbn [Main.load_visits]. by apply load_loop_all_good.
Qed.

(** The theorem on the sample files with a row of two or four fields put in. *)
Lemma malformed_row_aborts_witness :
  App.build_day1_index day1_csv (day1_rows ++ short_row :: day2_rows)
  = Raise (ValueError_columns day1_csv 4 2 short_row)
  ∧ Main.load_visits (header :: day1_rows ++ long_row :: day2_rows)
    = Raise (ValueError_unpack 4)
  ∧ ∃ v, Main.load_visits (short_row :: day1_rows) = Ok v.
Proof.
  split_and!.
  - apply (proj1 malformed_row_aborts day1_csv day1_rows short_row day2_rows).
    + repeat constructor.
    + vm_compute. discriminate.
  - apply (proj1 (proj2 (proj2 malformed_row_aborts))
             header day1_rows long_row day2_rows).
    + repeat constructor.
    + vm_compute. discriminate.
  - apply (proj2 (proj2 (proj2 malformed_row_aborts)) short_row day1_rows).
    repeat constructor.
Defined.

(** C2 on main.py: a first line of two fields is passed over and the file
    loads; a later row of two fields raises the same error on line 2 as on
    line 3, an error that names neither the file nor the line. *)
Lemma malformed_row_main_py_counterexample :
  Main.load_visits [short_row; [u1; pB; noon]] = Ok [(u1, {[pB]})]
  ∧ Main.load_visits [header; short_row; [u1; pB; noon]]
    = Raise (ValueError_unpack 2)
  ∧ Main.load_visits [header; [u1; pB; noon]; short_row]
    = Raise (ValueError_unpack 2).
Proof. split_and!; vm_compute; reflexivity. Qed.

(** * The output *)

Lemma write_output_lines user_ids :
  App.write_output user_ids = lines_of (sorted user_ids).
Proof. done. Qed.

Lemma print_all_lines users : Main.print_all users = lines_of users.
Proof. done. Qed.

Lemma lines_of_snoc l u : lines_of (l ++ [u]) = lines_of l ++ u ++ [newline].
Proof.
  unfold lines_of. rewrite fmap_app, concat_app. simpl.
  by rewrite app_nil_r.
Qed.

(** [sorted] does not depend on the order in which a set is enumerated. *)
Lemma sorted_Permutation l l' : l ≡ₚ l' → sorted l = sorted l'.
Proof.
  intros H. unfold sorted.
  apply (Sorted_unique str_le); try apply Sorted_merge_sort; try apply _.
  by rewrite !merge_sort_Permutation.
Qed.

Lemma lines_of_no_trailing_blank_line l :
  Forall (λ u, u ≠ [] ∧ no_trail u) l → no_trailing_blank_line (lines_of l).
Proof.
  induction l as [|x l _] using rev_ind; intros H.
  - split; [done|]. intros k Hk. by destruct k.
  - apply Forall_app in H as [_ H]. apply Forall_singleton in H as [Hne Htr].
    revert Hne Htr. induction x as [|c x _] using rev_ind; intros Hne Htr; [done|].
    apply no_trail_last in Htr.
    rewrite lines_of_snoc.
    replace (lines_of l ++ (x ++ [c]) ++ [newline])
      with ((lines_of l ++ x) ++ [c; newline])
      by (by rewrite <- !app_assoc).
    split.
    + intros Heq. apply (f_equal length) in Heq.
      rewrite length_app in Heq. simpl in Heq. lia.
    + intros k Hk. apply app_inj_2 in Hk as [_ [= ->]]; [|done].
      by vm_compute in Htr.
Qed.

Lemma records_trimmed rows u p :
  (u, p) ∈ App.records rows →
  (u ≠ [] ∧ no_lead u ∧ no_trail u) ∧ (p ≠ [] ∧ no_lead p ∧ no_trail p).
Proof.
  unfold App.records. rewrite list_elem_of_omap.
  intros (r & _ & (a & b & t & -> & <- & <- & Hu & Hp)%record_of_Some).
  split_and!; try done; auto using strip_no_lead, strip_no_trail.
Qed.

Lemma find_target_users_trimmed idx path rows result u :
  App.find_target_users idx path rows = Ok result →
  u ∈ result → u ≠ [] ∧ no_trail u.
Proof.
  intros H Hu.
  apply (find_target_users_elem_of _ _ _ _ H) in Hu as (_ & p & Hp & _).
  apply records_trimmed in Hp. naive_solver.
Qed.

(** C3, as the code has it.  app.py: [write_output] writes the user_ids it is
    given in ascending order, each followed by a line feed and nothing else,
    whatever the order in which the set is enumerated; for a set returned by
    [find_target_users] every user has its one line and the text has no empty
    line at its end.  main.py: [main] prints the selected users, each followed
    by a line feed, in the order in which the users first occur in the
    day-one file, not sorted. *)
Theorem output_lines :
  (∀ user_ids,
     App.write_output user_ids = lines_of (sorted user_ids)
     ∧ Sorted str_le (sorted user_ids)
     ∧ sorted user_ids ≡ₚ user_ids
     ∧ ∀ l, l ≡ₚ user_ids → App.write_output l = App.write_output user_ids)
  ∧ (∀ idx path rows result,
       App.find_target_users idx path rows = Ok result →
       NoDup (sorted (elements result))
       ∧ (∀ u, u ∈ sorted (elements result) ↔ u ∈ result)
       ∧ no_trailing_blank_line (App.write_output (elements result)))
  ∧ (∀ hdr1 rows1 day2_file day1 day2,
       Main.load_visits (hdr1 :: rows1) = Ok day1 →
       Main.load_visits day2_file = Ok day2 →
       Main.main (hdr1 :: rows1) day2_file
       = Ok (lines_of (filter (λ u, qualifies day1 day2 u = true)
                         (first_seen [] (Main.records rows1).*1)))).
Proof.
  split_and!.
  - intros user_ids. split_and!.
    + done.
    + apply Sorted_merge_sort. apply _.
    + apply merge_sort_Permutation.
    + intros l Hl. unfold App.write_output. by rewrite (sorted_Permutation _ _ Hl).
  - intros idx path rows result H.
    assert (Hperm : sorted (elements result) ≡ₚ elements result)
      by apply merge_sort_Permutation.
    split_and!.
    + rewrite Hperm. apply NoDup_elements.
    + intros u. by rewrite Hperm, elem_of_elements.
    + rewrite write_output_lines. apply lines_of_no_trailing_blank_line.
      apply Forall_forall. intros u Hu. rewrite Hperm, elem_of_elements in Hu.
      by eapply find_target_users_trimmed.
  - intros hdr1 rows1 day2_file day1 day2 H1 H2.
    unfold Main.main. rewrite H1, H2. simpl. unfold mret, res_ret.
    rewrite print_all_lines, result_users_filter.
    cbn [Main.load_visits] in H1. by rewrite (load_loop_keys _ _ _ H1).
Qed.

(** The theorem on the sample result and on the files in descending order. *)
Lemma output_lines_witness :
  no_trailing_blank_line (App.write_output (elements ({[u1]} : gset str)))
  ∧ Main.main day1_desc day2_desc
    = Ok (lines_of
            (filter (λ u, qualifies [(u2, {[pX]}); (u1, {[pA]})]
                            [(u1, {[pB]}); (u2, {[pA]})] u = true)
               (first_seen [] (Main.records [[u2; pX; noon]; [u1; pA; noon]]).*1))).
Proof.
  split.
  - apply (proj1 (proj2 output_lines)
             {[u1 := {[pA; pB]}; u2 := {[pX]}]} day2_csv day2_rows {[u1]}).
    vm_compute. reflexivity.
  - apply (proj2 (proj2 output_lines) header [[u2; pX; noon]; [u1; pA; noon]]
             day2_desc [(u2, {[pX]}); (u1, {[pA]})]
             [(u1, {[pB]}); (u2, {[pA]})]).
    + vm_compute. reflexivity.
    + vm_compute. reflexivity.
Defined.

(** C3 on main.py: the users are printed in the order of the day-one file,
    here [u2] before [u1], which is not ascending; [write_output] of app.py
    writes the same users the other way round. *)
Lemma output_not_sorted_main_py_counterexample :
  Main.selected day1_desc day2_desc = Ok [u2; u1]
  ∧ Main.main day1_desc day2_desc = Ok (lines_of [u2; u1])
  ∧ ¬ Sorted str_le [u2; u1]
  ∧ App.write_output [u2; u1] = lines_of [u1; u2]
  ∧ lines_of [u2; u1] ≠ lines_of [u1; u2].
Proof.
  split_and!.
  - vm_compute. reflexivity.
  - vm_compute. reflexivity.
  - intros H. apply Sorted_inv in H as [_ H]. apply HdRel_inv in H.
    by vm_compute in H.
  - vm_compute. reflexivity.
  - vm_compute. discriminate.
Qed.

(** * Trimmed identifiers and blank rows *)

Lemma value_bind {A B} (m : res A) (k : A → res B) :
  value (m ≫= k) = value m ≫= (λ a, value (k a)).
Proof. by destruct m. Qed.

Lemma record_of_trim_ids r : App.record_of (trim_ids r) = App.record_of r.
Proof.
  row_cases r; try done. unfold trim_ids, App.record_of.
  by rewrite !strip_idemp.
Qed.

Lemma three_fields_trim_ids r : three_fields (trim_ids r) ↔ three_fields r.
Proof. row_cases r; done. Qed.

Lemma trim_ids_other r : ¬ three_fields r → trim_ids r = r.
Proof. unfold three_fields. row_cases r; simpl; done. Qed.

Lemma build_loop_trim_ids path n rows idx :
  App.build_loop path n (trim_ids <$> rows) idx = App.build_loop path n rows idx.
Proof.
  revert n idx. induction rows as [|r rows IH]; intros n idx; [done|].
  rewrite fmap_cons. destruct (decide (three_fields r)) as [Hr|Hr].
  - destruct (three_fields_inv r Hr) as (a & b & t & ->).
    pose proof (record_of_trim_ids [a; b; t]) as Hrec.
    cbn [trim_ids] in *. by rewrite !build_loop_cons, Hrec, IH.
  - rewrite (trim_ids_other r Hr). by rewrite !build_loop_bad.
Qed.

Lemma find_loop_trim_ids idx path n rows result :
  App.find_loop idx path n (trim_ids <$> rows) result
  = App.find_loop idx path n rows result.
Proof.
  revert n result. induction rows as [|r rows IH]; intros n result; [done|].
  rewrite fmap_cons. destruct (decide (three_fields r)) as [Hr|Hr].
  - destruct (three_fields_inv r Hr) as (a & b & t & ->).
    pose proof (record_of_trim_ids [a; b; t]) as Hrec.
    cbn [trim_ids] in *. by rewrite !find_loop_cons, Hrec, IH.
  - rewrite (trim_ids_other r Hr). by rewrite !find_loop_bad.
Qed.

Lemma build_loop_blank path n r rows idx :
  blank_row r →
  App.build_loop path n (r :: rows) idx = App.build_loop path (S n) rows idx.
Proof.
  intros (u & p & t & -> & H).
  by rewrite build_loop_cons, record_of_blank.
Qed.

Lemma find_loop_blank idx path n r rows result :
  blank_row r →
  App.find_loop idx path n (r :: rows) result
  = App.find_loop idx path (S n) rows result.
Proof.
  intros (u & p & t & -> & H).
  by rewrite find_loop_cons, record_of_blank.
Qed.

Lemma build_loop_without_blank path n pre r post idx :
  blank_row r →
  value (App.build_loop path n (pre ++ r :: post) idx)
  = value (App.build_loop path n (pre ++ post) idx).
Proof.
  intros Hr. revert n idx. induction pre as [|x pre IH]; intros n idx; simpl app.
  - rewrite build_loop_blank by done. apply build_loop_value.
  - destruct (decide (three_fields x)) as [Hx|Hx].
    + destruct (three_fields_inv x Hx) as (a & b & t & ->).
      rewrite !build_loop_cons. apply IH.
    + by rewrite !build_loop_bad.
Qed.

Lemma find_loop_without_blank idx path n pre r post result :
  blank_row r →
  value (App.find_loop idx path n (pre ++ r :: post) result)
  = value (App.find_loop idx path n (pre ++ post) result).
Proof.
  intros Hr. revert n result.
  induction pre as [|x pre IH]; intros n result; simpl app.
  - rewrite find_loop_blank by done. apply find_loop_value.
  - destruct (decide (three_fields x)) as [Hx|Hx].
    + destruct (three_fields_inv x Hx) as (a & b & t & ->).
      rewrite !find_loop_cons. apply IH.
    + by rewrite !find_loop_bad.
Qed.

Lemma elem_of_main_records rows u p :
  (u, p) ∈ Main.records rows ↔ ∃ t, [u; p; t] ∈ rows.
Proof.
  unfold Main.records. rewrite list_elem_of_omap. split.
  - intros (r & Hr & Hrec). row_cases r; try done.
    injection Hrec as -> ->. eauto.
  - intros [t Ht]. by exists [u; p; t].
Qed.

(** C4, as the code has it.  app.py: both passes see the user_id and the
    product_id of a row only through [strip], so a file and the file with
    these fields trimmed give the same outcome, and what the index and the
    result hold is trimmed and not empty; a row of three fields with a blank
    user_id or product_id is passed over without an error and without a
    change to the index or the result set.  main.py: [load_visits] takes both
    fields as they stand, blank or not. *)
Theorem identifiers_trimmed :
  (∀ path rows,
     App.build_day1_index path (trim_ids <$> rows)
     = App.build_day1_index path rows
     ∧ ∀ idx, App.find_target_users idx path (trim_ids <$> rows)
              = App.find_target_users idx path rows)
  ∧ (∀ day1 rows1 day2 rows2 idx result,
       App.build_day1_index day1 rows1 = Ok idx →
       App.find_target_users idx day2 rows2 = Ok result →
       (∀ u p, p ∈ products_of idx u →
               (u ≠ [] ∧ no_lead u ∧ no_trail u)
               ∧ (p ≠ [] ∧ no_lead p ∧ no_trail p))
       ∧ (∀ u, u ∈ result → u ≠ [] ∧ no_lead u ∧ no_trail u))
  ∧ (∀ path n r rows idx result,
       blank_row r →
       App.build_loop path n (r :: rows) idx
       = App.build_loop path (S n) rows idx
       ∧ App.find_loop idx path n (r :: rows) result
         = App.find_loop idx path (S n) rows result)
  ∧ (∀ day1 pre1 r1 post1 day2 pre2 r2 post2,
       blank_row r1 → blank_row r2 →
       value (App.target_users day1 (pre1 ++ r1 :: post1)
                day2 (pre2 ++ r2 :: post2))
       = value (App.target_users day1 (pre1 ++ post1) day2 (pre2 ++ post2)))
  ∧ (∀ hdr rows v,
       Main.load_visits (hdr :: rows) = Ok v →
       ∀ u p, p ∈ mproducts_of v u ↔ ∃ t, [u; p; t] ∈ rows).
Proof.
  split_and!.
  - intros path rows. split; [|intros idx].
    + apply build_loop_trim_ids.
    + apply find_loop_trim_ids.
  - intros day1 rows1 day2 rows2 idx result Hidx Hres. split.
    + intros u p Hp.
      apply (build_day1_index_products _ _ _ Hidx u) in Hp.
      by apply records_trimmed in Hp.
    + intros u Hu.
      apply (find_target_users_elem_of _ _ _ _ Hres) in Hu as (Hd & _).
      apply (build_day1_index_products _ _ _ Hidx u) in Hd as [p Hp].
      apply records_trimmed in Hp. naive_solver.
  - intros path n r rows idx result Hr. split.
    + by apply build_loop_blank.
    + by apply find_loop_blank.
  - intros day1 pre1 r1 post1 day2 pre2 r2 post2 H1 H2.
    unfold App.target_users, App.build_day1_index, App.find_target_users.
    rewrite !value_bind, (build_loop_without_blank _ _ _ _ _ _ H1).
    destruct (value (App.build_loop day1 1 (pre1 ++ post1) ∅)) as [idx|];
      [|done].
    simpl. by apply find_loop_without_blank.
  - intros hdr rows v H u p.
    rewrite <- elem_of_main_records.
    apply (load_visits_products _ _ _ H u).
Qed.

(** The theorem on the sample files with two blank rows put in. *)
Lemma identifiers_trimmed_witness :
  value (App.target_users day1_csv ([] ++ [[]; pA; noon] :: day1_rows)
           day2_csv (day2_rows ++ [u1; py "  "; noon] :: []))
  = value (App.target_users day1_csv ([] ++ day1_rows)
             day2_csv (day2_rows ++ []))
  ∧ (∀ u p, p ∈ mproducts_of [(u1, {[pA; pB]}); (u2, {[pX]})] u ↔
            ∃ t, [u; p; t] ∈ day1_rows)
  ∧ (∀ u, u ∈ ({[u1]} : gset str) → u ≠ [] ∧ no_lead u ∧ no_trail u)
  ∧ App.build_loop day1_csv 1 ([py " "; pA; noon] :: day1_rows) ∅
    = App.build_loop day1_csv 2 day1_rows ∅.
Proof.
  split_and!.
  - apply (proj1 (proj2 (proj2 (proj2 identifiers_trimmed)))).
    + exists [], pA, noon. split; [reflexivity|]. left. reflexivity.
    + exists u1, (py "  "), noon. split; [reflexivity|]. right.
      vm_compute. reflexivity.
  - apply (proj2 (proj2 (proj2 (proj2 identifiers_trimmed))) header).
    vm_compute. reflexivity.
  - apply (proj1 (proj2 identifiers_trimmed) day1_csv day1_rows
             day2_csv day2_rows {[u1 := {[pA; pB]}; u2 := {[pX]}]} {[u1]}).
    + vm_compute. reflexivity.
    + vm_compute. reflexivity.
  - apply (proj1 (proj2 (proj2 identifiers_trimmed)) day1_csv 1
             [py " "; pA; noon] day1_rows ∅ ∅).
    exists (py " "), pA, noon. split; [reflexivity|]. left.
    vm_compute. reflexivity.
Defined.

(** C4 on main.py: nothing is trimmed and a blank user_id is stored and
    printed like any other.  A user_id with a leading space is a key of its
    own; a row with an empty user_id adds a key to the mapping and a line to
    the output; a product_id that differs from a day-one product_id only by
    a trailing space counts as new, where app.py finds no user. *)
Lemma identifiers_not_trimmed_main_py_counterexample :
  Main.load_visits [header; [py " u1"; pA; noon]] = Ok [(py " u1", {[pA]})]
  ∧ Main.load_visits [header; [[]; pA; noon]] = Ok [([], {[pA]})]
  ∧ Main.load_visits [header] = Ok []
  ∧ Main.main [header; [[]; pA; noon]] [header; [[]; pB; noon]] = Ok [newline]
  ∧ Main.main [header] [header] = Ok []
  ∧ Main.main [header; [u1; pA; noon]] [header; [u1; py "pA "; noon]]
    = Ok (lines_of [u1])
  ∧ App.target_users day1_csv [[u1; pA; noon]] day2_csv [[u1; py "pA "; noon]]
    = Ok ∅.
Proof. split_and!; vm_compute; reflexivity. Qed.

(** * The short-circuit step *)

(** C5. The comparator with the short-circuit step and the comparator
    without it return the same: the same result set, or the same error. *)
Theorem short_circuit_changes_nothing idx day2_path rows :
  App.find_target_users idx day2_path rows
  = App.find_target_users_without_short_circuit idx day2_path rows.
Proof. apply find_loop_short_circuit. Qed.

(** * Repeated rows *)

Lemma record_of_ts a b t t' : App.record_of [a; b; t] = App.record_of [a; b; t'].
Proof. done. Qed.

Lemma raw_pair_Some r a b : raw_pair r = Some (a, b) ↔ ∃ t, r = [a; b; t].
Proof.
  split.
  - row_cases r; try done. intros [= -> ->]. eauto.
  - by intros [t ->].
Qed.

Lemma raw_pair_None r : ¬ three_fields r → raw_pair r = None.
Proof. unfold three_fields. row_cases r; simpl; done. Qed.

Lemma add_record_visited idx u p : visited idx u p → add_record idx u p = idx.
Proof.
  intros (s & Hs & Hp). unfold add_record. rewrite Hs.
  apply insert_id. rewrite Hs. f_equal. set_solver.
Qed.

Lemma build_loop_remove_duplicates path n path' n' seen rows idx :
  (∀ a b u p, (a, b) ∈ seen → App.record_of [a; b; []] = Some (u, p) →
              visited idx u p) →
  value (App.build_loop path n (remove_duplicates seen rows) idx)
  = value (App.build_loop path' n' rows idx).
Proof.
  revert n n' seen idx.
  induction rows as [|r rows IH]; intros n n' seen idx Hseen; [done|].
  destruct (decide (three_fields r)) as [Hr|Hr].
  2:{ cbn [remove_duplicates]. rewrite raw_pair_None by done.
      by rewrite !build_loop_bad. }
  destruct (three_fields_inv r Hr) as (a & b & t & ->).
  cbn [remove_duplicates raw_pair]. rewrite (build_loop_cons path').
  rewrite (record_of_ts a b t []).
  destruct (decide ((a, b) ∈ seen)) as [Hin|Hin].
  - rewrite (bool_decide_eq_true_2 _ Hin).
    destruct (App.record_of [a; b; []]) as [[u p]|] eqn:Hrec.
    + rewrite add_record_visited by eauto. by apply IH.
    + by apply IH.
  - rewrite (bool_decide_eq_false_2 _ Hin).
    rewrite build_loop_cons, (record_of_ts a b t []).
    apply IH. intros a' b' u' p' [[= -> ->]|Hin']%elem_of_cons Hrec'.
    + rewrite Hrec'. apply visited_add_record. by right.
    + destruct (App.record_of [a; b; []]) as [[u p]|]; [|by eauto].
      apply visited_add_record. left. eauto.
Qed.

Lemma check_record_settled idx result u p :
  settled idx result u p → check_record idx result u p = result.
Proof.
  intros H. unfold check_record. destruct (idx !! u) as [s|] eqn:E; [|done].
  destruct (H s E) as [Hu|Hp].
  - by rewrite (bool_decide_eq_true_2 _ Hu).
  - destruct (bool_decide (u ∈ result)); [done|].
    rewrite bool_decide_eq_false_2; [done|]. by intros ?.
Qed.

Lemma settled_check_record idx result u p :
  settled idx (check_record idx result u p) u p.
Proof.
  intros s Hs. rewrite elem_of_check_record.
  destruct (decide (p ∈ s)); [by right|]. left. right. eauto.
Qed.

Lemma settled_mono idx result u p u' p' :
  settled idx result u p → settled idx (check_record idx result u' p') u p.
Proof.
  intros H s Hs. rewrite elem_of_check_record.
  destruct (H s Hs); auto.
Qed.

Lemma find_loop_remove_duplicates idx path n path' n' seen rows result :
  (∀ a b u p, (a, b) ∈ seen → App.record_of [a; b; []] = Some (u, p) →
              settled idx result u p) →
  value (App.find_loop idx path n (remove_duplicates seen rows) result)
  = value (App.find_loop idx path' n' rows result).
Proof.
  revert n n' seen result.
  induction rows as [|r rows IH]; intros n n' seen result Hseen; [done|].
  destruct (decide (three_fields r)) as [Hr|Hr].
  2:{ cbn [remove_duplicates]. rewrite raw_pair_None by done.
      by rewrite !find_loop_bad. }
  destruct (three_fields_inv r Hr) as (a & b & t & ->).
  cbn [remove_duplicates raw_pair]. rewrite (find_loop_cons idx path').
  rewrite (record_of_ts a b t []).
  destruct (decide ((a, b) ∈ seen)) as [Hin|Hin].
  - rewrite (bool_decide_eq_true_2 _ Hin).
    destruct (App.record_of [a; b; []]) as [[u p]|] eqn:Hrec.
    + rewrite check_record_settled by eauto. by apply IH.
    + by apply IH.
  - rewrite (bool_decide_eq_false_2 _ Hin).
    rewrite find_loop_cons, (record_of_ts a b t []).
    apply IH. intros a' b' u' p' [[= -> ->]|Hin']%elem_of_cons Hrec'.
    + rewrite Hrec'. apply settled_check_record.
    + destruct (App.record_of [a; b; []]) as [[u p]|]; [|by eauto].
      apply settled_mono. eauto.
Qed.

Lemma visits_add_visited v u p : mvisited v u p → Main.visits_add v u p = v.
Proof.
  unfold mvisited. induction v as [|[k s] v IH]; simpl.
  - by intros (? & ? & _).
  - destruct (decide (k = u)) as [->|Hk].
    + rewrite !(bool_decide_eq_true_2 (u = u)) by done.
      intros (? & [= <-] & Hp). do 2 f_equal. set_solver.
    + rewrite !(bool_decide_eq_false_2 (k = u)) by done.
      intros H. f_equal. by apply IH.
Qed.

Lemma load_loop_remove_duplicates seen rows v :
  (∀ a b, (a, b) ∈ seen → mvisited v a b) →
  Main.load_loop (remove_duplicates seen rows) v = Main.load_loop rows v.
Proof.
  revert seen v. induction rows as [|r rows IH]; intros seen v Hseen; [done|].
  destruct (decide (three_fields r)) as [Hr|Hr].
  2:{ cbn [remove_duplicates]. rewrite raw_pair_None by done.
      by rewrite !load_loop_bad. }
  destruct (three_fields_inv r Hr) as (a & b & t & ->).
  cbn [remove_duplicates raw_pair]. rewrite (load_loop_cons a b t rows).
  destruct (decide ((a, b) ∈ seen)) as [Hin|Hin].
  - rewrite (bool_decide_eq_true_2 _ Hin).
    rewrite visits_add_visited by eauto. by apply IH.
  - rewrite (bool_decide_eq_false_2 _ Hin), load_loop_cons.
    apply IH. intros a' b' [[= -> ->]|Hin']%elem_of_cons.
    + apply mvisited_add. by right.
    + apply mvisited_add. left. eauto.
Qed.

Lemma text_of_main day1 rows1 day2 rows2 :
  App.text_of (App.main day1 (Some rows1) day2 (Some rows2))
  = (λ users, App.write_output (elements users))
      <$> value (App.target_users day1 rows1 day2 rows2).
Proof.
  unfold App.main. by destruct (App.target_users day1 rows1 day2 rows2).
Qed.

(** C6, as the code has it.  A file and the file without its repeated rows
    give the same result set and the same output, where a row repeats an
    earlier one when both have three fields and the same user_id and
    product_id.  app.py: over the whole file.  main.py: over the rows after
    the first line only; the first line is dropped unread, so a row that
    repeats it is the only one of the two that counts. *)
Theorem duplicates_change_nothing :
  (∀ day1 rows1 day2 rows2,
     value (App.target_users day1 (remove_duplicates [] rows1)
              day2 (remove_duplicates [] rows2))
     = value (App.target_users day1 rows1 day2 rows2)
     ∧ App.text_of (App.main day1 (Some (remove_duplicates [] rows1))
                      day2 (Some (remove_duplicates [] rows2)))
       = App.text_of (App.main day1 (Some rows1) day2 (Some rows2)))
  ∧ (∀ hdr1 rows1 hdr2 rows2,
       Main.selected (hdr1 :: remove_duplicates [] rows1)
         (hdr2 :: remove_duplicates [] rows2)
       = Main.selected (hdr1 :: rows1) (hdr2 :: rows2)
       ∧ Main.main (hdr1 :: remove_duplicates [] rows1)
           (hdr2 :: remove_duplicates [] rows2)
         = Main.main (hdr1 :: rows1) (hdr2 :: rows2)).
Proof.
  split.
  - intros day1 rows1 day2 rows2.
    assert (Heq : value (App.target_users day1 (remove_duplicates [] rows1)
                           day2 (remove_duplicates [] rows2))
                  = value (App.target_users day1 rows1 day2 rows2)).
    { unfold App.target_users, App.build_day1_index, App.find_target_users.
      rewrite !value_bind.
      rewrite (build_loop_remove_duplicates day1 1 day1 1 [] rows1 ∅)
        by (by intros ? ? ? ? ?%elem_of_nil).
      destruct (value (App.build_loop day1 1 rows1 ∅)) as [idx|]; [|done].
      simpl. apply find_loop_remove_duplicates.
      by intros ? ? ? ? ?%elem_of_nil. }
    split; [done|]. by rewrite !text_of_main, Heq.
  - intros hdr1 rows1 hdr2 rows2.
    unfold Main.selected, Main.main. cbn [Main.load_visits].
    rewrite !load_loop_remove_duplicates by (by intros ? ? ?%elem_of_nil).
    done.
Qed.

(** C6 on main.py with the whole file taken: the day-one file holds the row
    (u1, pA) twice, on line 1 and on line 2.  [load_visits] drops line 1 and
    reads line 2, so u1 is a day-one user and is selected for pB; once the
    repeated row is removed only line 1 is left, which is dropped, and nobody
    is selected. *)
Lemma duplicates_main_py_counterexample :
  remove_duplicates [] [[u1; pA; noon]; [u1; pA; noon]] = [[u1; pA; noon]]
  ∧ remove_duplicates [] [header; [u1; pB; noon]] = [header; [u1; pB; noon]]
  ∧ Main.selected [[u1; pA; noon]; [u1; pA; noon]] [header; [u1; pB; noon]]
    = Ok [u1]
  ∧ Main.selected (remove_duplicates [] [[u1; pA; noon]; [u1; pA; noon]])
      (remove_duplicates [] [header; [u1; pB; noon]])
    = Ok []
  ∧ Main.main [[u1; pA; noon]; [u1; pA; noon]] [header; [u1; pB; noon]]
    = Ok (lines_of [u1])
  ∧ Main.main (remove_duplicates [] [[u1; pA; noon]; [u1; pA; noon]])
      (remove_duplicates [] [header; [u1; pB; noon]])
    = Ok [].
Proof. split_and!; vm_compute; reflexivity. Qed.

Example remove_duplicates_sample :
  remove_duplicates []
    [[u1; pA; noon]; [u1; pA; py "later"]; short_row; [u1; pB; noon];
     [u1; pA; noon]; short_row]
  = [[u1; pA; noon]; short_row; [u1; pB; noon]; short_row].
Proof. vm_compute. reflexivity. Qed.

(** * The example of the specification *)

(** C7. On day1 = {(u1,pA),(u1,pB),(u2,pX)} and day2 = {(u1,pA),(u1,pC),
    (u2,pX)} the result is {u1}: in app.py, and in main.py both when the
    rows follow a first line and when the first record stands on the first
    line.  The paths, the timestamps and the first lines are arbitrary. *)
Theorem example_result day1 day2 hdr1 hdr2 t1 t2 t3 t4 t5 t6 :
  App.target_users day1 [[u1; pA; t1]; [u1; pB; t2]; [u2; pX; t3]]
    day2 [[u1; pA; t4]; [u1; pC; t5]; [u2; pX; t6]]
  = Ok {[u1]}
  ∧ Main.selected (hdr1 :: [[u1; pA; t1]; [u1; pB; t2]; [u2; pX; t3]])
      (hdr2 :: [[u1; pA; t4]; [u1; pC; t5]; [u2; pX; t6]])
    = Ok [u1]
  ∧ Main.selected [[u1; pA; t1]; [u1; pB; t2]; [u2; pX; t3]]
      [[u1; pA; t4]; [u1; pC; t5]; [u2; pX; t6]]
    = Ok [u1].
Proof. split_and!; vm_compute; reflexivity. Qed.

(** * Timestamps *)

Lemma with_timestamps_cons ts r rows :
  with_timestamps ts (r :: rows)
  = with_timestamp (ts 0) r :: with_timestamps (ts ∘ S) rows.
Proof. done. Qed.

Lemma three_fields_with_timestamp t r :
  three_fields (with_timestamp t r) ↔ three_fields r.
Proof. unfold three_fields. row_cases r; done. Qed.

Lemma length_with_timestamp t r : length (with_timestamp t r) = length r.
Proof. destruct r as [|u [|p [|t' r]]]; done. Qed.

Lemma build_loop_with_timestamps path n ts rows idx :
  value (App.build_loop path n (with_timestamps ts rows) idx)
  = value (App.build_loop path n rows idx).
Proof.
  revert n ts idx. induction rows as [|r rows IH]; intros n ts idx; [done|].
  rewrite with_timestamps_cons.
  destruct (decide (three_fields r)) as [Hr|Hr].
  - destruct (three_fields_inv r Hr) as (a & b & t & ->).
    cbn [with_timestamp]. rewrite !build_loop_cons.
    rewrite (record_of_ts a b (ts 0) t). apply IH.
  - rewrite !build_loop_bad; [done|done|].
    by rewrite three_fields_with_timestamp.
Qed.

Lemma find_loop_with_timestamps idx path n ts rows result :
  value (App.find_loop idx path n (with_timestamps ts rows) result)
  = value (App.find_loop idx path n rows result).
Proof.
  revert n ts result. induction rows as [|r rows IH]; intros n ts result; [done|].
  rewrite with_timestamps_cons.
  destruct (decide (three_fields r)) as [Hr|Hr].
  - destruct (three_fields_inv r Hr) as (a & b & t & ->).
    cbn [with_timestamp]. rewrite !find_loop_cons.
    rewrite (record_of_ts a b (ts 0) t). apply IH.
  - rewrite !find_loop_bad; [done|done|].
    by rewrite three_fields_with_timestamp.
Qed.

Lemma load_loop_with_timestamps ts rows v :
  Main.load_loop (with_timestamps ts rows) v = Main.load_loop rows v.
Proof.
  revert ts v. induction rows as [|r rows IH]; intros ts v; [done|].
  rewrite with_timestamps_cons.
  destruct (decide (three_fields r)) as [Hr|Hr].
  - destruct (three_fields_inv r Hr) as (a & b & t & ->).
    cbn [with_timestamp]. rewrite !load_loop_cons. apply IH.
  - rewrite !load_loop_bad; [|done|by rewrite three_fields_with_timestamp].
    by rewrite length_with_timestamp.
Qed.

Lemma load_visits_with_timestamps ts rows :
  Main.load_visits (with_timestamps ts rows) = Main.load_visits rows.
Proof.
  destruct rows as [|hdr rows]; [done|].
  rewrite with_timestamps_cons. cbn [Main.load_visits].
  apply load_loop_with_timestamps.
Qed.

(** C8. Putting any other timestamps in the third field of any rows of the
    two files changes neither the result set nor the output.  app.py: the
    result set and the text written are the same, and a run fails exactly
    when the other fails (the error message echoes the fields of a row that
    does not have three).  main.py: the outcome is the same, text or error. *)
Theorem timestamps_are_ignored (ts1 ts2 : nat → str) :
  (∀ day1 rows1 day2 rows2,
     value (App.target_users day1 (with_timestamps ts1 rows1)
              day2 (with_timestamps ts2 rows2))
     = value (App.target_users day1 rows1 day2 rows2)
     ∧ App.text_of (App.main day1 (Some (with_timestamps ts1 rows1))
                      day2 (Some (with_timestamps ts2 rows2)))
       = App.text_of (App.main day1 (Some rows1) day2 (Some rows2)))
  ∧ (∀ day1_file day2_file,
       Main.selected (with_timestamps ts1 day1_file)
         (with_timestamps ts2 day2_file)
       = Main.selected day1_file day2_file
       ∧ Main.main (with_timestamps ts1 day1_file)
           (with_timestamps ts2 day2_file)
         = Main.main day1_file day2_file).
Proof.
  split.
  - intros day1 rows1 day2 rows2.
    assert (Heq : value (App.target_users day1 (with_timestamps ts1 rows1)
                           day2 (with_timestamps ts2 rows2))
                  = value (App.target_users day1 rows1 day2 rows2)).
    { unfold App.target_users, App.build_day1_index, App.find_target_users.
      rewrite !value_bind, build_loop_with_timestamps.
      destruct (value (App.build_loop day1 1 rows1 ∅)) as [idx|]; [|done].
      simpl. apply find_loop_with_timestamps. }
    split; [done|]. by rewrite !text_of_main, Heq.
  - intros day1_file day2_file. unfold Main.selected, Main.main.
    by rewrite !load_visits_with_timestamps.
Qed.

Example with_timestamps_sample :
  with_timestamps (λ i, [N.of_nat i]) [[u1; pA; noon]; short_row; long_row]
  = [[u1; pA; [0%N]]; short_row; [u1; pA; [2%N]; noon]].
Proof. vm_compute. reflexivity. Qed.

(** * The day-one index during the comparison pass *)

(** The set that [find_target_users] returns on the store is the one the
    value model computes from the mapping held by the dictionary. *)
Lemma store_find_target_users_result idx path rows h m :
  dict_ok h idx m →
  match App.find_target_users (omap (AppStore.set_at h) m) path rows with
  | Ok result =>
      ∃ r, h !! r = None
        ∧ AppStore.find_target_users idx path rows h
          = (Ok r, <[r := AppStore.OSet result]> h)
  | Raise e => (AppStore.find_target_users idx path rows h).1 = Raise e
  end.
Proof.
  intros Hok. destruct (find_target_users_sim idx path rows h m Hok)
    as (res' & Hrun & Hres).
  rewrite Hrun.
  destruct (App.find_target_users (omap (AppStore.set_at h) m) path rows)
    as [result|e]; [|done].
  rewrite <- (Hres result eq_refl). exists (fresh (dom h)). split; [|done].
  apply not_elem_of_dom, is_fresh.
Qed.

(** C9. [find_target_users] leaves the day-one index as [build_day1_index]
    completed it: every object that was in the store before the pass, the
    dictionary and each per-user set among them, is the same object with the
    same content after it, whether the pass returns or raises; the mapping
    read through the dictionary is the same, and it is the mapping of the
    day-one file. *)
Theorem comparison_leaves_index_unchanged day1 rows1 h0 idx h day2 rows2 :
  AppStore.build_day1_index day1 rows1 h0 = (Ok idx, h) →
  let h' := (AppStore.find_target_users idx day2 rows2 h).2 in
  h ⊆ h'
  ∧ AppStore.index_at h' idx = AppStore.index_at h idx
  ∧ AppStore.index_at h idx = value (App.build_day1_index day1 rows1).
Proof.
  intros Hbuild h'.
  pose proof (build_day1_index_sim day1 rows1 h0) as Hsim.
  destruct (App.build_day1_index day1 rows1) as [ix|e].
  2:{ destruct Hsim as (? & Hsim). by rewrite Hbuild in Hsim. }
  destruct Hsim as (d & h1 & m & Hsim & Hok & Hix).
  rewrite Hbuild in Hsim. injection Hsim as <- <-.
  destruct (find_target_users_sim idx day2 rows2 h m Hok) as (res' & Hrun & _).
  destruct (dict_ok_fresh h idx m Hok) as [Hne Hm].
  destruct (dict_ok_insert_other h idx m _ res' Hok Hne Hm) as [Hok' Heq].
  assert (Hh' : h' = <[fresh (dom h) := AppStore.OSet res']> h).
  { unfold h'. by rewrite Hrun. }
  rewrite Hh'. split_and!.
  - apply insert_subseteq, not_elem_of_dom, is_fresh.
  - unfold AppStore.index_at.
    destruct Hok as (-> & _). destruct Hok' as (-> & _). by rewrite Heq.
  - unfold AppStore.index_at. destruct Hok as (-> & _). simpl. by rewrite Hix.
Qed.

(** The theorem on the store that holds the index of the sample day-one file. *)
Lemma comparison_leaves_index_unchanged_witness :
  let h' := (AppStore.find_target_users 0 day2_csv day2_rows day1_store).2 in
  day1_store ⊆ h'
  ∧ AppStore.index_at h' 0 = AppStore.index_at day1_store 0
  ∧ AppStore.index_at day1_store 0
    = value (App.build_day1_index day1_csv day1_rows).
Proof.
  apply (comparison_leaves_index_unchanged day1_csv day1_rows ∅ 0 day1_store
           day2_csv day2_rows).
  vm_compute. reflexivity.
Defined.

Example day1_store_sample :
  day1_store
  = {[0 := AppStore.ODict {[u1 := 1; u2 := 2]};
      1 := AppStore.OSet {[pA; pB]};
      2 := AppStore.OSet {[pX]}]}
  ∧ AppStore.find_target_users 0 day2_csv day2_rows day1_store
    = (Ok 3, <[3 := AppStore.OSet {[u1]}]> day1_store).
Proof. split; vm_compute; reflexivity. Qed.

(** * The first line in main.py *)

(** C10. [load_visits] drops the first line of a file that has one, header
    or not: what it returns is what its loop builds from the rows after the
    first line, so it is the same for any first line, it holds the pairs of
    those rows only, and [main] prints the same for any first lines. *)
Theorem first_line_discarded hdr rows :
  Main.load_visits (hdr :: rows) = Main.load_loop rows []
  ∧ (∀ hdr', Main.load_visits (hdr' :: rows) = Main.load_visits (hdr :: rows))
  ∧ (∀ v, Main.load_visits (hdr :: rows) = Ok v →
          ∀ u p, p ∈ mproducts_of v u ↔ (u, p) ∈ Main.records rows)
  ∧ (∀ hdr' hdr2 hdr2' rows2,
       Main.main (hdr' :: rows) (hdr2' :: rows2)
       = Main.main (hdr :: rows) (hdr2 :: rows2)).
Proof.
  split_and!; try done.
  intros v H u. apply (load_visits_products _ _ _ H u).
Qed.

(** The theorem on a file whose first line is a record. *)
Lemma first_line_discarded_witness :
  Main.load_visits ([u1; pA; noon] :: [[u1; pB; noon]; [u2; pX; noon]])
  = Ok [(u1, {[pB]}); (u2, {[pX]})]
  ∧ (pA ∈ mproducts_of [(u1, {[pB]}); (u2, {[pX]})] u1 ↔
     (u1, pA) ∈ Main.records [[u1; pB; noon]; [u2; pX; noon]]).
Proof.
  split.
  - vm_compute. reflexivity.
  - apply (proj1 (proj2 (proj2 (first_line_discarded [u1; pA; noon]
                                  [[u1; pB; noon]; [u2; pX; noon]])))).
    vm_compute. reflexivity.
Defined.

Example first_record_lost :
  Main.load_visits day1_rows = Ok [(u1, {[pB]}); (u2, {[pX]})]
  ∧ Main.load_visits [[u1; pA; noon]] = Ok []
  ∧ Main.load_visits [[u1; pA; noon]; [u1; pA; noon]] = Ok [(u1, {[pA]})]
  ∧ Main.load_visits (header :: day1_rows)
    = Ok [(u1, {[pA; pB]}); (u2, {[pX]})]
  ∧ Main.load_visits [] = Raise StopIteration.
Proof. split_and!; vm_compute; reflexivity. Qed.

(** * More on the result, the exceptions and the order of rows *)

Lemma target_users_Ok_inv day1 rows1 day2 rows2 result :
  App.target_users day1 rows1 day2 rows2 = Ok result →
  ∃ idx, App.build_day1_index day1 rows1 = Ok idx
         ∧ App.find_target_users idx day2 rows2 = Ok result.
Proof.
  unfold App.target_users.
  destruct (App.build_day1_index day1 rows1) as [idx|e]; [|done].
  simpl. eauto.
Qed.

Lemma index_ext (i1 i2 : gmap str (gset str)) :
  (∀ u s, i1 !! u = Some s → s ≠ ∅) →
  (∀ u s, i2 !! u = Some s → s ≠ ∅) →
  (∀ u p, visited i1 u p ↔ visited i2 u p) →
  i1 = i2.
Proof.
  intros H1 H2 Hv. apply map_eq. intros u.
  destruct (i1 !! u) as [s1|] eqn:E1, (i2 !! u) as [s2|] eqn:E2; [|..|done].
  - f_equal. apply set_eq. intros p. split; intros Hp.
    + destruct (proj1 (Hv u p)) as (s & Hs & ?); [by exists s1|]. congruence.
    + destruct (proj2 (Hv u p)) as (s & Hs & ?); [by exists s2|]. congruence.
  - destruct (set_choose_L s1 (H1 _ _ E1)) as [p Hp].
    destruct (proj1 (Hv u p)) as (s & Hs & ?); [by exists s1|]. congruence.
  - destruct (set_choose_L s2 (H2 _ _ E2)) as [p Hp].
    destruct (proj2 (Hv u p)) as (s & Hs & ?); [by exists s2|]. congruence.
Qed.

Lemma build_day1_index_visited path rows idx :
  App.build_day1_index path rows = Ok idx →
  ∀ u p, visited idx u p ↔ (u, p) ∈ App.records rows.
Proof.
  intros H u p. rewrite (build_loop_visited _ _ _ _ _ H). unfold visited.
  rewrite lookup_empty. naive_solver.
Qed.

Lemma build_day1_index_nonempty path rows idx :
  App.build_day1_index path rows = Ok idx →
  ∀ u s, idx !! u = Some s → s ≠ ∅.
Proof.
  intros H. eapply build_loop_nonempty; [exact H|].
  intros ? ?. by rewrite lookup_empty.
Qed.

Lemma target_users_elem_of day1 rows1 day2 rows2 result :
  App.target_users day1 rows1 day2 rows2 = Ok result →
  ∀ u, u ∈ result ↔
       (∃ p, (u, p) ∈ App.records rows1)
       ∧ (∃ p, (u, p) ∈ App.records rows2 ∧ (u, p) ∉ App.records rows1).
Proof.
  intros (idx & Hidx & Hres)%target_users_Ok_inv u.
  rewrite (find_target_users_elem_of _ _ _ _ Hres).
  destruct (build_day1_index_products _ _ _ Hidx u) as [Hp Hd].
  rewrite Hd. by setoid_rewrite Hp.
Qed.

(** X1. The result of app.py is exactly the set of users that have a row in
    the day-one file and a day-two (user_id, product_id) pair that is not
    among the day-one pairs, identifiers normalised: no such user is left
    out. *)
Theorem target_users_exact day1 rows1 day2 rows2 result :
  App.target_users day1 rows1 day2 rows2 = Ok result →
  ∀ u, u ∈ result ↔
       (∃ p, (u, p) ∈ App.records rows1)
       ∧ (∃ p, (u, p) ∈ App.records rows2 ∧ (u, p) ∉ App.records rows1).
Proof.
  intros (idx & Hidx & Hres)%target_users_Ok_inv u.
  rewrite (find_target_users_elem_of _ _ _ _ Hres).
  destruct (build_day1_index_products _ _ _ Hidx u) as [Hp Hd].
  rewrite Hd. by setoid_rewrite Hp.
Qed.

(** X1 on the sample files. *)
Lemma target_users_exact_witness :
  App.target_users day1_csv day1_rows day2_csv day2_rows = Ok {[u1]}
  ∧ (u2 ∈ ({[u1]} : gset str) ↔
     (∃ p, (u2, p) ∈ App.records day1_rows)
     ∧ (∃ p, (u2, p) ∈ App.records day2_rows ∧ (u2, p) ∉ App.records day1_rows)).
Proof.
  split.
  - vm_compute. reflexivity.
  - apply (target_users_exact day1_csv day1_rows day2_csv day2_rows).
    vm_compute. reflexivity.
Defined.

Lemma build_loop_Raise path n rows idx e :
  App.build_loop path n rows idx = Raise e →
  ∃ pre r post, rows = pre ++ r :: post ∧ Forall three_fields pre
    ∧ ¬ three_fields r
    ∧ e = ValueError_columns path (n + length pre) (length r) r.
Proof.
  revert n idx. induction rows as [|r rows IH]; intros n idx H; [done|].
  destruct (decide (three_fields r)) as [Hr|Hr].
  - destruct (three_fields_inv r Hr) as (a & b & t & ->).
    rewrite build_loop_cons in H.
    destruct (IH _ _ H) as (pre & r & post & -> & Hpre & Hbad & ->).
    exists ([a; b; t] :: pre), r, post. split_and!; try done.
    + by constructor.
    + simpl. do 2 f_equal. lia.
  - rewrite build_loop_bad in H by done. injection H as <-.
    exists [], r, rows. split_and!; try done. simpl. do 2 f_equal. lia.
Qed.

Lemma find_loop_Raise idx path n rows result e :
  App.find_loop idx path n rows result = Raise e →
  ∃ pre r post, rows = pre ++ r :: post ∧ Forall three_fields pre
    ∧ ¬ three_fields r
    ∧ e = ValueError_columns path (n + length pre) (length r) r.
Proof.
  revert n result. induction rows as [|r rows IH]; intros n result H; [done|].
  destruct (decide (three_fields r)) as [Hr|Hr].
  - destruct (three_fields_inv r Hr) as (a & b & t & ->).
    rewrite find_loop_cons in H.
    destruct (IH _ _ H) as (pre & r & post & -> & Hpre & Hbad & ->).
    exists ([a; b; t] :: pre), r, post. split_and!; try done.
    + by constructor.
    + simpl. do 2 f_equal. lia.
  - rewrite find_loop_bad in H by done. injection H as <-.
    exists [], r, rows. split_and!; try done. simpl. do 2 f_equal. lia.
Qed.

(** X2. A column error of [build_day1_index] or [find_target_users] tells
    the truth: when either raises the error of app.py for a path, a row
    number, a count and a row, the path is the one given, the row is the
    first row of the file that does not have three fields, the number is its
    position counted from 1, and the count is its number of fields. *)
Theorem column_error_names_first_bad_row path rows idx path' n got r :
  App.build_day1_index path rows = Raise (ValueError_columns path' n got r)
  ∨ App.find_target_users idx path rows
    = Raise (ValueError_columns path' n got r) →
  path' = path ∧ got = length r ∧ ¬ three_fields r
  ∧ ∃ pre post,
      rows = pre ++ r :: post ∧ n = S (length pre) ∧ Forall three_fields pre.
Proof.
  intros [H|H].
  - apply build_loop_Raise in H as (pre & r0 & post & -> & Hpre & Hr & He).
    injection He as -> -> -> ->. split_and!; try done. by exists pre, post.
  - apply find_loop_Raise in H as (pre & r0 & post & -> & Hpre & Hr & He).
    injection He as -> -> -> ->. split_and!; try done. by exists pre, post.
Qed.

(** X2 on the sample day-one file followed by a row of two fields. *)
Lemma column_error_names_first_bad_row_witness :
  App.build_day1_index day1_csv (day1_rows ++ [short_row])
  = Raise (ValueError_columns day1_csv 4 2 short_row)
  ∧ (day1_csv = day1_csv ∧ 2 = length short_row ∧ ¬ three_fields short_row
     ∧ ∃ pre post,
         day1_rows ++ [short_row] = pre ++ short_row :: post
         ∧ 4 = S (length pre) ∧ Forall three_fields pre).
Proof.
  split.
  - vm_compute. reflexivity.
  - apply (column_error_names_first_bad_row day1_csv
             (day1_rows ++ [short_row]) ∅ day1_csv 4 2 short_row).
    left. vm_compute. reflexivity.
Defined.

Lemma selected_Ok_inv f1 f2 users :
  Main.selected f1 f2 = Ok users →
  ∃ day1 day2, Main.load_visits f1 = Ok day1 ∧ Main.load_visits f2 = Ok day2
               ∧ users = Main.result_users day1 day2.
Proof.
  unfold Main.selected.
  destruct (Main.load_visits f1) as [day1|]; [|done].
  destruct (Main.load_visits f2) as [day2|]; [|done].
  simpl. intros [= <-]. eauto.
Qed.

Lemma NoDup_first_seen seen users : NoDup seen → NoDup (first_seen seen users).
Proof.
  revert seen. induction users as [|u users IH]; intros seen H; [done|].
  simpl. destruct (decide (u ∈ seen)) as [Hin|Hin].
  - rewrite (bool_decide_eq_true_2 _ Hin). by apply IH.
  - rewrite (bool_decide_eq_false_2 _ Hin). apply IH.
    apply NoDup_app. split_and!; [done| |apply NoDup_singleton].
    intros x Hx ->%list_elem_of_singleton. done.
Qed.

Lemma load_visits_NoDup rows v :
  Main.load_visits rows = Ok v → NoDup (v.*1).
Proof.
  destruct rows as [|hdr rows]; [done|]. cbn [Main.load_visits].
  intros H. rewrite (load_loop_keys _ _ _ H). apply NoDup_first_seen.
  constructor.
Qed.

Lemma selected_elem_of hdr1 rows1 hdr2 rows2 users :
  Main.selected (hdr1 :: rows1) (hdr2 :: rows2) = Ok users →
  ∀ u, u ∈ users ↔
       (∃ p, (u, p) ∈ Main.records rows1)
       ∧ (∃ p, (u, p) ∈ Main.records rows2 ∧ (u, p) ∉ Main.records rows1).
Proof.
  intros (day1 & day2 & H1 & H2 & ->)%selected_Ok_inv u.
  rewrite result_users_elem_of.
  destruct (load_visits_products _ _ _ H1 u) as [Hp1 Hd1].
  destruct (load_visits_products _ _ _ H2 u) as [Hp2 _].
  rewrite Hd1. setoid_rewrite Hp1. by setoid_rewrite Hp2.
Qed.

(** X3. The users main.py selects are exactly the users that have a row
    after the first line of the day-one file and, after the first line of the
    day-two file, a (user_id, product_id) pair that is not among the day-one
    pairs, fields as they stand. *)
Theorem selected_exact hdr1 rows1 hdr2 rows2 users :
  Main.selected (hdr1 :: rows1) (hdr2 :: rows2) = Ok users →
  ∀ u, u ∈ users ↔
       (∃ p, (u, p) ∈ Main.records rows1)
       ∧ (∃ p, (u, p) ∈ Main.records rows2 ∧ (u, p) ∉ Main.records rows1).
Proof.
  intros (day1 & day2 & H1 & H2 & ->)%selected_Ok_inv u.
  rewrite result_users_elem_of.
  destruct (load_visits_products _ _ _ H1 u) as [Hp1 Hd1].
  destruct (load_visits_products _ _ _ H2 u) as [Hp2 _].
  rewrite Hd1. setoid_rewrite Hp1. by setoid_rewrite Hp2.
Qed.

(** X3 on the sample files under a header line. *)
Lemma selected_exact_witness :
  Main.selected (header :: day1_rows) (header :: day2_rows) = Ok [u1]
  ∧ (u2 ∈ [u1] ↔
     (∃ p, (u2, p) ∈ Main.records day1_rows)
     ∧ (∃ p, (u2, p) ∈ Main.records day2_rows
             ∧ (u2, p) ∉ Main.records day1_rows)).
Proof.
  split.
  - vm_compute. reflexivity.
  - apply (selected_exact header day1_rows header day2_rows).
    vm_compute. reflexivity.
Defined.

Lemma selected_once day1_file day2_file users :
  Main.selected day1_file day2_file = Ok users → NoDup users.
Proof.
  intros (day1 & day2 & H1 & H2 & ->)%selected_Ok_inv.
  rewrite result_users_filter. apply NoDup_filter.
  by eapply load_visits_NoDup.
Qed.

(** X4. main.py selects, and so prints, no user twice. *)
Theorem selected_NoDup day1_file day2_file users :
  Main.selected day1_file day2_file = Ok users → NoDup users.
Proof.
  intros (day1 & day2 & H1 & H2 & ->)%selected_Ok_inv.
  rewrite result_users_filter. apply NoDup_filter.
  by eapply load_visits_NoDup.
Qed.

(** X4 on the files whose users come in descending order. *)
Lemma selected_NoDup_witness : NoDup [u2; u1].
Proof.
  apply (selected_NoDup day1_desc day2_desc). vm_compute. reflexivity.
Defined.


Lemma load_loop_Ok_good rows v v' :
  Main.load_loop rows v = Ok v' → Forall three_fields rows.
Proof.
  revert v. induction rows as [|r rows IH]; intros v H; [done|].
  destruct (decide (three_fields r)) as [Hr|Hr].
  2:{ by rewrite load_loop_bad in H. }
  constructor; [done|].
  destruct (three_fields_inv r Hr) as (a & b & t & ->).
  rewrite load_loop_cons in H. by eapply IH.
Qed.



(** X6. Neither program keeps a user without a product: a user is a key of
    the mapping returned by [build_day1_index], or by [load_visits], exactly
    when its product set there is not empty; and [load_visits] returns each
    key once. *)
Theorem index_sets_nonempty :
  (∀ path rows idx, App.build_day1_index path rows = Ok idx →
     ∀ u, u ∈ dom idx ↔ products_of idx u ≠ ∅)
  ∧ (∀ rows v, Main.load_visits rows = Ok v →
       NoDup (v.*1) ∧ ∀ u, u ∈ v.*1 ↔ mproducts_of v u ≠ ∅).
Proof.
  split.
  - intros path rows idx H u. rewrite elem_of_dom. unfold products_of.
    split.
    + intros [s Hs]. rewrite Hs. simpl.
      by eapply build_day1_index_nonempty.
    + destruct (idx !! u); [by eauto|done].
  - intros rows v H. split; [by eapply load_visits_NoDup|].
    intros u. rewrite <- visits_get_keys. unfold mproducts_of.
    destruct rows as [|hdr rows]; [done|]. cbn [Main.load_visits] in H.
    split.
    + intros [s Hs]. rewrite Hs. simpl.
      eapply (load_loop_nonempty _ _ _ H); [|exact Hs]. by intros ? ?.
    + destruct (Main.visits_get v u); [by eauto|done].
Qed.

(** X6 on the sample day-one file. *)
Lemma index_sets_nonempty_witness :
  (u1 ∈ dom ({[u1 := {[pA; pB]}; u2 := {[pX]}]} : gmap str (gset str)) ↔
   products_of {[u1 := {[pA; pB]}; u2 := {[pX]}]} u1 ≠ ∅)
  ∧ NoDup [(u1, ({[pA; pB]} : gset str)); (u2, {[pX]})].*1.
Proof.
  split.
  - apply (proj1 index_sets_nonempty day1_csv day1_rows).
    vm_compute. reflexivity.
  - apply (proj2 index_sets_nonempty (header :: day1_rows)).
    vm_compute. reflexivity.
Defined.

Lemma build_day1_index_Ok_iff path rows :
  is_Some (value (App.build_day1_index path rows)) ↔ Forall three_fields rows.
Proof.
  unfold App.build_day1_index. split.
  - destruct (App.build_loop path 1 rows ∅) eqn:E; simpl.
    + intros _. by eapply build_loop_Ok_good.
    + by intros [? ?].
  - intros H. destruct (build_loop_all_good path 1 rows ∅ H) as [idx ->].
    by eexists.
Qed.

Lemma build_day1_index_ext path rows path' rows' :
  (Forall three_fields rows ↔ Forall three_fields rows') →
  (∀ x, x ∈ App.records rows ↔ x ∈ App.records rows') →
  value (App.build_day1_index path rows)
  = value (App.build_day1_index path' rows').
Proof.
  intros Hwf Hrec.
  pose proof (build_day1_index_Ok_iff path rows) as H1.
  pose proof (build_day1_index_Ok_iff path' rows') as H2.
  destruct (App.build_day1_index path rows) as [i1|] eqn:E1,
           (App.build_day1_index path' rows') as [i2|] eqn:E2; simpl in *.
  - f_equal. apply index_ext.
    + by eapply build_day1_index_nonempty.
    + by eapply build_day1_index_nonempty.
    + intros u p. rewrite (build_day1_index_visited _ _ _ E1),
        (build_day1_index_visited _ _ _ E2). apply Hrec.
  - assert (is_Some (@None (gmap str (gset str)))) as [? ?]; [|done].
    apply H2, Hwf, H1. by eexists.
  - assert (is_Some (@None (gmap str (gset str)))) as [? ?]; [|done].
    apply H1, Hwf, H2. by eexists.
  - done.
Qed.

Lemma find_target_users_Ok_iff idx path rows :
  is_Some (value (App.find_target_users idx path rows)) ↔ Forall three_fields rows.
Proof.
  unfold App.find_target_users. split.
  - destruct (App.find_loop idx path 1 rows ∅) eqn:E; simpl.
    + intros _. by eapply find_loop_Ok_good.
    + by intros [? ?].
  - intros H. destruct (find_loop_all_good idx path 1 rows ∅ H) as [r ->].
    by eexists.
Qed.

Lemma find_target_users_ext idx path rows path' rows' :
  (Forall three_fields rows ↔ Forall three_fields rows') →
  (∀ x, x ∈ App.records rows ↔ x ∈ App.records rows') →
  value (App.find_target_users idx path rows)
  = value (App.find_target_users idx path' rows').
Proof.
  intros Hwf Hrec.
  pose proof (find_target_users_Ok_iff idx path rows) as H1.
  pose proof (find_target_users_Ok_iff idx path' rows') as H2.
  destruct (App.find_target_users idx path rows) as [r1|] eqn:E1,
           (App.find_target_users idx path' rows') as [r2|] eqn:E2; simpl in *.
  - f_equal. apply set_eq. intros u.
    rewrite (find_target_users_elem_of _ _ _ _ E1),
      (find_target_users_elem_of _ _ _ _ E2).
    by setoid_rewrite Hrec.
  - assert (is_Some (@None (gset str))) as [? ?]; [|done].
    apply H2, Hwf, H1. by eexists.
  - assert (is_Some (@None (gset str))) as [? ?]; [|done].
    apply H1, Hwf, H2. by eexists.
  - done.
Qed.

Lemma target_users_ext day1 rows1 day2 rows2 day1' rows1' day2' rows2' :
  (Forall three_fields rows1 ↔ Forall three_fields rows1') →
  (∀ x, x ∈ App.records rows1 ↔ x ∈ App.records rows1') →
  (Forall three_fields rows2 ↔ Forall three_fields rows2') →
  (∀ x, x ∈ App.records rows2 ↔ x ∈ App.records rows2') →
  value (App.target_users day1 rows1 day2 rows2)
  = value (App.target_users day1' rows1' day2' rows2').
Proof.
  intros Hw1 Hr1 Hw2 Hr2. unfold App.target_users. rewrite !value_bind.
  rewrite (build_day1_index_ext day1 rows1 day1' rows1') by done.
  destruct (value (App.build_day1_index day1' rows1')) as [idx|]; [|done].
  simpl. by apply find_target_users_ext.
Qed.

Lemma records_Permutation rows rows' :
  rows ≡ₚ rows' → App.records rows ≡ₚ App.records rows'.
Proof. intros H. unfold App.records. by rewrite H. Qed.

Lemma main_records_Permutation rows rows' :
  rows ≡ₚ rows' → Main.records rows ≡ₚ Main.records rows'.
Proof. intros H. unfold Main.records. by rewrite H. Qed.

(** X7. app.py does not depend on the order of the rows: two day-one files
    with the same rows in another order, and two such day-two files, give the
    same result set and the same text, and fail together. *)
Theorem row_order_irrelevant day1 rows1 day2 rows2 rows1' rows2' :
  rows1 ≡ₚ rows1' → rows2 ≡ₚ rows2' →
  value (App.target_users day1 rows1 day2 rows2)
  = value (App.target_users day1 rows1' day2 rows2')
  ∧ App.text_of (App.main day1 (Some rows1) day2 (Some rows2))
    = App.text_of (App.main day1 (Some rows1') day2 (Some rows2')).
Proof.
  intros H1 H2.
  assert (Heq : value (App.target_users day1 rows1 day2 rows2)
                = value (App.target_users day1 rows1' day2 rows2')).
  { apply target_users_ext.
    - by rewrite H1.
    - intros x. by rewrite (records_Permutation _ _ H1).
    - by rewrite H2.
    - intros x. by rewrite (records_Permutation _ _ H2). }
  split; [done|]. by rewrite !text_of_main, Heq.
Qed.

(** X7 on the sample files with two rows exchanged. *)
Lemma row_order_irrelevant_witness :
  value (App.target_users day1_csv day1_rows day2_csv day2_rows)
  = value (App.target_users day1_csv
             [[u1; pB; noon]; [u1; pA; noon]; [u2; pX; noon]]
             day2_csv [[u1; pC; noon]; [u1; pA; noon]; [u2; pX; noon]])
  ∧ App.text_of (App.main day1_csv (Some day1_rows) day2_csv (Some day2_rows))
    = App.text_of
        (App.main day1_csv
           (Some [[u1; pB; noon]; [u1; pA; noon]; [u2; pX; noon]])
           day2_csv (Some [[u1; pC; noon]; [u1; pA; noon]; [u2; pX; noon]])).
Proof.
  apply (row_order_irrelevant day1_csv day1_rows day2_csv day2_rows).
  - apply perm_swap.
  - apply perm_swap.
Defined.

Lemma load_visits_Ok_iff rows :
  is_Some (value (Main.load_visits rows)) ↔
  ∃ hdr rows', rows = hdr :: rows' ∧ Forall three_fields rows'.
Proof.
  destruct rows as [|hdr rows]; cbn [Main.load_visits].
  - split; [by intros [? ?]|by intros (? & ? & ? & _)].
  - split.
    + destruct (Main.load_loop rows []) eqn:E; simpl; [|by intros [? ?]].
      intros _. exists hdr, rows. split; [done|]. by eapply load_loop_Ok_good.
    + intros (? & ? & [= <- <-] & H).
      destruct (load_loop_all_good rows [] H) as [v ->]. by eexists.
Qed.

Lemma load_visits_get_ext hdr rows v hdr' rows' v' :
  Main.load_visits (hdr :: rows) = Ok v →
  Main.load_visits (hdr' :: rows') = Ok v' →
  (∀ x, x ∈ Main.records rows ↔ x ∈ Main.records rows') →
  ∀ u, Main.visits_get v u = Main.visits_get v' u.
Proof.
  intros H H' Hrec u.
  destruct (load_visits_products _ _ _ H u) as [Hp Hd].
  destruct (load_visits_products _ _ _ H' u) as [Hp' Hd'].
  assert (Hk : is_Some (Main.visits_get v u) ↔ is_Some (Main.visits_get v' u)).
  { rewrite !visits_get_keys, Hd, Hd'. by setoid_rewrite Hrec. }
  unfold mproducts_of in Hp, Hp'.
  destruct (Main.visits_get v u) as [s|], (Main.visits_get v' u) as [s'|];
    simpl in *.
  - f_equal. apply set_eq. intros p. by rewrite Hp, Hp', Hrec.
  - destruct (proj1 Hk) as [? ?]; [by eexists|done].
  - destruct (proj2 Hk) as [? ?]; [by eexists|done].
  - done.
Qed.

Lemma value_selected f1 f2 :
  value (Main.selected f1 f2)
  = day1 ← value (Main.load_visits f1);
    day2 ← value (Main.load_visits f2);
    Some (Main.result_users day1 day2).
Proof.
  unfold Main.selected.
  destruct (Main.load_visits f1); [|done].
  by destruct (Main.load_visits f2).
Qed.

Lemma value_main f1 f2 :
  value (Main.main f1 f2) = Main.print_all <$> value (Main.selected f1 f2).
Proof.
  unfold Main.main, Main.selected.
  destruct (Main.load_visits f1); [|done].
  by destruct (Main.load_visits f2).
Qed.

(** X8. In main.py the order of the rows after the first line decides only
    the order of the output: with the rows of both files reordered the same
    users are selected, each once, possibly in another order, and the runs
    fail together; reordering the day-two rows alone leaves the printed text
    as it is. *)
Theorem main_py_row_order hdr1 rows1 hdr2 rows2 hdr1' rows1' hdr2' rows2' :
  rows1 ≡ₚ rows1' → rows2 ≡ₚ rows2' →
  option_Forall2 (≡ₚ)
    (value (Main.selected (hdr1 :: rows1) (hdr2 :: rows2)))
    (value (Main.selected (hdr1' :: rows1') (hdr2' :: rows2')))
  ∧ value (Main.main (hdr1 :: rows1) (hdr2 :: rows2))
    = value (Main.main (hdr1 :: rows1) (hdr2' :: rows2')).
Proof.
  intros P1 P2. split.
  - pose proof (load_visits_Ok_iff (hdr1 :: rows1)) as A1.
    pose proof (load_visits_Ok_iff (hdr1' :: rows1')) as A1'.
    pose proof (load_visits_Ok_iff (hdr2 :: rows2)) as A2.
    pose proof (load_visits_Ok_iff (hdr2' :: rows2')) as A2'.
    destruct (Main.selected (hdr1 :: rows1) (hdr2 :: rows2)) as [l|] eqn:E,
      (Main.selected (hdr1' :: rows1') (hdr2' :: rows2')) as [l'|] eqn:E';
      simpl.
    + constructor. apply NoDup_Permutation.
      * by eapply selected_once.
      * by eapply selected_once.
      * intros u. rewrite (selected_elem_of _ _ _ _ _ E u),
          (selected_elem_of _ _ _ _ _ E' u).
        by setoid_rewrite (main_records_Permutation _ _ P1);
          setoid_rewrite (main_records_Permutation _ _ P2).
    + exfalso. apply selected_Ok_inv in E as (v1 & v2 & H1 & H2 & _).
      rewrite H1 in A1. rewrite H2 in A2.
      destruct (proj1 A1) as (? & ? & [= <- <-] & G1); [by eexists|].
      destruct (proj1 A2) as (? & ? & [= <- <-] & G2); [by eexists|].
      rewrite P1 in G1. rewrite P2 in G2.
      destruct (proj2 A1') as [w1 Hw1]; [by eauto|].
      destruct (proj2 A2') as [w2 Hw2]; [by eauto|].
      apply (f_equal value) in E'. rewrite value_selected in E'.
      rewrite Hw1, Hw2 in E'. done.
    + exfalso. apply selected_Ok_inv in E' as (v1 & v2 & H1 & H2 & _).
      rewrite H1 in A1'. rewrite H2 in A2'.
      destruct (proj1 A1') as (? & ? & [= <- <-] & G1); [by eexists|].
      destruct (proj1 A2') as (? & ? & [= <- <-] & G2); [by eexists|].
      rewrite <- P1 in G1. rewrite <- P2 in G2.
      destruct (proj2 A1) as [w1 Hw1]; [by eauto|].
      destruct (proj2 A2) as [w2 Hw2]; [by eauto|].
      apply (f_equal value) in E. rewrite value_selected in E.
      rewrite Hw1, Hw2 in E. done.
    + constructor.
  - rewrite !value_main, !value_selected.
    assert (Hrec : ∀ x, x ∈ Main.records rows2 ↔ x ∈ Main.records rows2').
    { intros x. by rewrite (main_records_Permutation _ _ P2). }
    cbn [Main.load_visits].
    destruct (Main.load_loop rows1 []) as [v1|] eqn:H1; [|done].
    cbn [value mbind option_bind].
    destruct (Main.load_loop rows2 []) as [v2|] eqn:H2,
      (Main.load_loop rows2' []) as [v2'|] eqn:H2'; cbn [value mbind option_bind].
    + do 2 f_equal. rewrite !result_users_filter. apply list_filter_iff.
      intros u. unfold qualifies.
      by rewrite (load_visits_get_ext hdr2 _ _ hdr2' _ _ H2 H2' Hrec).
    + exfalso. apply load_loop_Ok_good in H2. rewrite P2 in H2.
      destruct (load_loop_all_good rows2' [] H2) as [? ?]. congruence.
    + exfalso. apply load_loop_Ok_good in H2'. rewrite <- P2 in H2'.
      destruct (load_loop_all_good rows2 [] H2') as [? ?]. congruence.
    + done.
Qed.

(** X8 on the files whose users come in descending order, day-one rows
    exchanged. *)
Lemma main_py_row_order_witness :
  option_Forall2 (≡ₚ)
    (value (Main.selected (header :: [[u2; pX; noon]; [u1; pA; noon]])
              (header :: [[u1; pB; noon]; [u2; pA; noon]])))
    (value (Main.selected (header :: [[u1; pA; noon]; [u2; pX; noon]])
              (header :: [[u2; pA; noon]; [u1; pB; noon]])))
  ∧ value (Main.main (header :: [[u2; pX; noon]; [u1; pA; noon]])
             (header :: [[u1; pB; noon]; [u2; pA; noon]]))
    = value (Main.main (header :: [[u2; pX; noon]; [u1; pA; noon]])
               (header :: [[u2; pA; noon]; [u1; pB; noon]])).
Proof.
  apply main_py_row_order.
  - apply perm_swap.
  - apply perm_swap.
Defined.

Example main_py_row_order_sample :
  Main.selected (header :: [[u2; pX; noon]; [u1; pA; noon]])
    (header :: [[u1; pB; noon]; [u2; pA; noon]]) = Ok [u2; u1]
  ∧ Main.selected (header :: [[u1; pA; noon]; [u2; pX; noon]])
      (header :: [[u2; pA; noon]; [u1; pB; noon]]) = Ok [u1; u2].
Proof. split; vm_compute; reflexivity. Qed.

Lemma records_app a b : App.records (a ++ b) = App.records a ++ App.records b.
Proof. apply omap_app. Qed.

Lemma value_Ok {A} (m : res A) a : value m = Some a → m = Ok a.
Proof. destruct m; simpl; congruence. Qed.

(** X9. [find_target_users] distributes over the day-two file: when the
    comparator returns on each of two files, it returns on the two put one
    after the other, in either order, the union of the two results.  So rows
    added to a day-two file never remove a user. *)
Theorem day2_chunks idx path_a a path_b b path result_a result_b :
  App.find_target_users idx path_a a = Ok result_a →
  App.find_target_users idx path_b b = Ok result_b →
  App.find_target_users idx path (a ++ b) = Ok (result_a ∪ result_b)
  ∧ App.find_target_users idx path (b ++ a) = Ok (result_a ∪ result_b).
Proof.
  intros Ha Hb.
  assert (Fa : Forall three_fields a).
  { apply (find_target_users_Ok_iff idx path_a). rewrite Ha. by eexists. }
  assert (Fb : Forall three_fields b).
  { apply (find_target_users_Ok_iff idx path_b). rewrite Hb. by eexists. }
  assert (G : ∀ c, Forall three_fields c →
            (∀ x, x ∈ App.records c ↔ x ∈ App.records a ∨ x ∈ App.records b) →
            App.find_target_users idx path c = Ok (result_a ∪ result_b)).
  { intros c Fc Hc.
    destruct (proj2 (find_target_users_Ok_iff idx path c) Fc) as [r Hr].
    apply value_Ok in Hr. rewrite Hr. f_equal. apply set_eq. intros u.
    rewrite elem_of_union, (find_target_users_elem_of _ _ _ _ Hr),
      (find_target_users_elem_of _ _ _ _ Ha),
      (find_target_users_elem_of _ _ _ _ Hb).
    setoid_rewrite Hc. naive_solver. }
  split; apply G.
  - by apply Forall_app.
  - intros x. by rewrite records_app, elem_of_app.
  - by apply Forall_app.
  - intros x. rewrite records_app, elem_of_app. tauto.
Qed.

(** X9 on the sample day-two file cut after its first row. *)
Lemma day2_chunks_witness :
  App.find_target_users {[u1 := {[pA; pB]}; u2 := {[pX]}]} day2_csv
    ([[u1; pA; noon]] ++ [[u1; pC; noon]; [u2; pX; noon]])
  = Ok (∅ ∪ {[u1]})
  ∧ App.find_target_users {[u1 := {[pA; pB]}; u2 := {[pX]}]} day2_csv
      ([[u1; pC; noon]; [u2; pX; noon]] ++ [[u1; pA; noon]])
    = Ok (∅ ∪ {[u1]}).
Proof.
  apply (day2_chunks _ day1_csv _ day2_csv).
  - vm_compute. reflexivity.
  - vm_compute. reflexivity.
Defined.

Lemma visited_merge_index a b u p :
  visited (merge_index a b) u p ↔ visited a u p ∨ visited b u p.
Proof.
  unfold visited, merge_index. rewrite lookup_union_with.
  destruct (a !! u) as [s|], (b !! u) as [t|]; simpl.
  - split.
    + intros (? & [= <-] & [?|?]%elem_of_union); eauto.
    + intros [(? & [= <-] & ?)|(? & [= <-] & ?)];
        eexists; (split; [done|set_solver]).
  - naive_solver.
  - naive_solver.
  - naive_solver.
Qed.

(** X10. [build_day1_index] is additive in the day-one file: when it returns
    on each of two files, it returns on the two put one after the other the
    index that holds, for every user, the union of the two product sets. *)
Theorem day1_chunks path_a a path_b b path idx_a idx_b :
  App.build_day1_index path_a a = Ok idx_a →
  App.build_day1_index path_b b = Ok idx_b →
  App.build_day1_index path (a ++ b) = Ok (merge_index idx_a idx_b)
  ∧ ∀ u, products_of (merge_index idx_a idx_b) u
         = products_of idx_a u ∪ products_of idx_b u.
Proof.
  intros Ha Hb. split.
  - assert (Fa : Forall three_fields a).
    { apply (build_day1_index_Ok_iff path_a). rewrite Ha. by eexists. }
    assert (Fb : Forall three_fields b).
    { apply (build_day1_index_Ok_iff path_b). rewrite Hb. by eexists. }
    destruct (proj2 (build_day1_index_Ok_iff path (a ++ b))) as [idx Hidx].
    { by apply Forall_app. }
    apply value_Ok in Hidx. rewrite Hidx. f_equal. apply index_ext.
    + by eapply build_day1_index_nonempty.
    + intros u s. unfold merge_index. rewrite lookup_union_with.
      pose proof (build_day1_index_nonempty _ _ _ Ha u) as Na.
      pose proof (build_day1_index_nonempty _ _ _ Hb u) as Nb.
      destruct (idx_a !! u) as [sa|], (idx_b !! u) as [sb|]; simpl;
        intros [= <-]; eauto.
      specialize (Na sa eq_refl). set_solver.
    + intros u p. rewrite visited_merge_index,
        (build_day1_index_visited _ _ _ Hidx),
        (build_day1_index_visited _ _ _ Ha),
        (build_day1_index_visited _ _ _ Hb).
      by rewrite records_app, elem_of_app.
  - intros u. unfold products_of, merge_index. rewrite lookup_union_with.
    destruct (idx_a !! u), (idx_b !! u); simpl; set_solver.
Qed.

(** X10 on the sample day-one file cut after its first row. *)
Lemma day1_chunks_witness :
  App.build_day1_index day1_csv
    ([[u1; pA; noon]] ++ [[u1; pB; noon]; [u2; pX; noon]])
  = Ok (merge_index {[u1 := {[pA]}]} {[u1 := {[pB]}; u2 := {[pX]}]})
  ∧ ∀ u, products_of
           (merge_index {[u1 := {[pA]}]} {[u1 := {[pB]}; u2 := {[pX]}]}) u
         = products_of {[u1 := {[pA]}]} u
           ∪ products_of {[u1 := {[pB]}; u2 := {[pX]}]} u.
Proof.
  apply (day1_chunks day1_csv _ day2_csv).
  - vm_compute. reflexivity.
  - vm_compute. reflexivity.
Defined.

Lemma clean_row_three r : clean_row r → three_fields r.
Proof. by intros (u & p & t & -> & _). Qed.

Lemma clean_row_record r :
  clean_row r → App.record_of r = Main.record_of r.
Proof.
  intros (u & p & t & -> & Hu & Hp & Nu & Np).
  unfold App.record_of, Main.record_of. rewrite Hu, Hp.
  by rewrite (bool_decide_eq_false_2 _ Nu), (bool_decide_eq_false_2 _ Np).
Qed.

Lemma clean_records rows :
  Forall clean_row rows → App.records rows = Main.records rows.
Proof.
  unfold App.records, Main.records.
  induction 1 as [|r rows Hr _ IH]; [done|].
  cbn [omap list_omap]. fold (omap App.record_of rows).
  fold (omap Main.record_of rows).
  by rewrite (clean_row_record r Hr), IH.
Qed.

(** X11. On files whose rows all have three fields with identifiers that are
    not blank and carry no surrounding whitespace, the two programs agree:
    both return, main.py (reading the rows under a first line) selects each
    user of app.py's result set once and no other, and [write_output] would
    write the same text for both. *)
Theorem programs_agree_on_clean_files day1 hdr1 rows1 day2 hdr2 rows2 :
  Forall clean_row rows1 → Forall clean_row rows2 →
  ∃ result users,
    App.target_users day1 rows1 day2 rows2 = Ok result
    ∧ Main.selected (hdr1 :: rows1) (hdr2 :: rows2) = Ok users
    ∧ users ≡ₚ elements result
    ∧ App.write_output users = App.write_output (elements result).
Proof.
  intros C1 C2.
  assert (F1 : Forall three_fields rows1)
    by (eapply Forall_impl; [exact C1|apply clean_row_three]).
  assert (F2 : Forall three_fields rows2)
    by (eapply Forall_impl; [exact C2|apply clean_row_three]).
  destruct (proj2 (target_users_Ok day1 rows1 day2 rows2) (conj F1 F2))
    as [result Hres]. apply value_Ok in Hres.
  destruct (load_loop_all_good rows1 [] F1) as [v1 H1].
  destruct (load_loop_all_good rows2 [] F2) as [v2 H2].
  assert (Hsel : Main.selected (hdr1 :: rows1) (hdr2 :: rows2)
                 = Ok (Main.result_users v1 v2)).
  { unfold Main.selected. cbn [Main.load_visits]. by rewrite H1, H2. }
  exists result, (Main.result_users v1 v2).
  assert (P : Main.result_users v1 v2 ≡ₚ elements result).
  { apply NoDup_Permutation.
    - by eapply selected_once.
    - apply NoDup_elements.
    - intros u. rewrite elem_of_elements,
        (selected_elem_of _ _ _ _ _ Hsel u), (target_users_elem_of _ _ _ _ _ Hres u).
      by rewrite (clean_records _ C1), (clean_records _ C2). }
  split_and!; try done.
  unfold App.write_output. by rewrite (sorted_Permutation _ _ P).
Qed.

(** X11 on the sample files. *)
Lemma programs_agree_on_clean_files_witness :
  ∃ result users,
    App.target_users day1_csv day1_rows day2_csv day2_rows = Ok result
    ∧ Main.selected (header :: day1_rows) (header :: day2_rows) = Ok users
    ∧ users ≡ₚ elements result
    ∧ App.write_output users = App.write_output (elements result).
Proof.
  apply programs_agree_on_clean_files.
  - repeat (constructor;
      [eexists _, _, _; split_and!;
       [reflexivity| vm_compute; reflexivity| vm_compute; reflexivity
       | vm_compute; discriminate | vm_compute; discriminate]|]).
    constructor.
  - repeat (constructor;
      [eexists _, _, _; split_and!;
       [reflexivity| vm_compute; reflexivity| vm_compute; reflexivity
       | vm_compute; discriminate | vm_compute; discriminate]|]).
    constructor.
Defined.

(** X12. A day-two file that brings no pair the day-one file does not have
    finds nobody: app.py returns the empty set and main.py prints nothing.
    In particular a file compared with itself finds nobody. *)
Theorem nothing_new_nobody_found :
  (∀ day1 rows1 day2 rows2,
     Forall three_fields rows1 → Forall three_fields rows2 →
     (∀ x, x ∈ App.records rows2 → x ∈ App.records rows1) →
     App.target_users day1 rows1 day2 rows2 = Ok ∅)
  ∧ (∀ hdr1 rows1 hdr2 rows2,
       Forall three_fields rows1 → Forall three_fields rows2 →
       (∀ x, x ∈ Main.records rows2 → x ∈ Main.records rows1) →
       Main.main (hdr1 :: rows1) (hdr2 :: rows2) = Ok []).
Proof.
  split.
  - intros day1 rows1 day2 rows2 F1 F2 Hsub.
    destruct (proj2 (target_users_Ok day1 rows1 day2 rows2) (conj F1 F2))
      as [result Hres]. apply value_Ok in Hres. rewrite Hres. f_equal.
    apply set_eq. intros u. rewrite (target_users_elem_of _ _ _ _ _ Hres u).
    split; [|set_solver]. intros (_ & p & Hp & Hn). by apply Hsub in Hp.
  - intros hdr1 rows1 hdr2 rows2 F1 F2 Hsub.
    destruct (load_loop_all_good rows1 [] F1) as [v1 H1].
    destruct (load_loop_all_good rows2 [] F2) as [v2 H2].
    assert (Hsel : Main.selected (hdr1 :: rows1) (hdr2 :: rows2)
                   = Ok (Main.result_users v1 v2)).
    { unfold Main.selected. cbn [Main.load_visits]. by rewrite H1, H2. }
    unfold Main.main. cbn [Main.load_visits]. rewrite H1, H2. simpl.
    unfold mret, res_ret. f_equal.
    destruct (Main.result_users v1 v2) as [|u l] eqn:E; [done|].
    exfalso.
    destruct (proj1 (selected_elem_of _ _ _ _ _ Hsel u)) as (_ & p & Hp & Hn).
    { by left. }
    by apply Hsub in Hp.
Qed.

(** X12 on the sample day-one file compared with itself. *)
Lemma nothing_new_nobody_found_witness :
  App.target_users day1_csv day1_rows day2_csv day1_rows = Ok ∅
  ∧ Main.main (header :: day1_rows) (header :: day1_rows) = Ok [].
Proof.
  split.
  - apply (proj1 nothing_new_nobody_found).
    + repeat constructor.
    + repeat constructor.
    + intros x Hx. exact Hx.
  - apply (proj2 nothing_new_nobody_found).
    + repeat constructor.
    + repeat constructor.
    + intros x Hx. exact Hx.
Defined.

Lemma line_split u u' x x' :
  no_newline u → no_newline u' →
  u ++ newline :: x = u' ++ newline :: x' → u = u' ∧ x = x'.
Proof.
  unfold no_newline. revert u'.
  induction u as [|c u IH]; intros [|c' u'] Hu Hu'; simpl.
  - by intros [= ->].
  - intros [= <- _]. exfalso. apply Hu'. by left.
  - intros [= -> _]. exfalso. apply Hu. by left.
  - intros [= -> H]. apply IH in H as [-> ->]; [done| |].
    + intros ?. apply Hu. by right.
    + intros ?. apply Hu'. by right.
Qed.

Lemma lines_of_cons u l : lines_of (u :: l) = u ++ newline :: lines_of l.
Proof. unfold lines_of. simpl. by rewrite <- app_assoc. Qed.

Lemma lines_of_inj l l' :
  Forall no_newline l → Forall no_newline l' → lines_of l = lines_of l' → l = l'.
Proof.
  intros H. revert l'. induction H as [|u l Hu _ IH]; intros l' H' Heq.
  - destruct H' as [|u' l' _ _]; [done|].
    rewrite lines_of_cons in Heq. by destruct u'.
  - destruct H' as [|u' l' Hu' H'].
    + rewrite lines_of_cons in Heq. by destruct u.
    + rewrite !lines_of_cons in Heq.
      apply line_split in Heq as [-> Heq]; [|done..].
      f_equal. by apply IH.
Qed.

(** X13. The text of [write_output] determines the set it was written from,
    as long as no user_id contains a line feed: two such sets with the same
    text are equal.  (A user_id with a line feed inside, which a quoted CSV
    field can hold, is written over two lines: see the example below.) *)
Theorem output_determines_result (result result' : gset str) :
  (∀ u, u ∈ result ∪ result' → no_newline u) →
  App.write_output (elements result) = App.write_output (elements result') →
  result = result'.
Proof.
  intros Hnl Heq. rewrite !write_output_lines in Heq.
  assert (P : ∀ r : gset str, sorted (elements r) ≡ₚ elements r)
    by (intros r; apply merge_sort_Permutation).
  apply lines_of_inj in Heq.
  - apply set_eq. intros u.
    by rewrite <- !elem_of_elements, <- (P result), <- (P result'), Heq.
  - apply Forall_forall. intros u. rewrite (P result), elem_of_elements.
    intros ?. apply Hnl. set_solver.
  - apply Forall_forall. intros u. rewrite (P result'), elem_of_elements.
    intros ?. apply Hnl. set_solver.
Qed.

(** X13 on two ways to write the sample users. *)
Lemma output_determines_result_witness :
  ({[u1; u2]} : gset str) = {[u2; u1]}.
Proof.
  apply output_determines_result.
  - intros u Hu. apply (bool_decide_unpack _).
    assert (u = u1 ∨ u = u2) as [-> | ->] by set_solver;
      vm_compute; exact I.
  - vm_compute. reflexivity.
Defined.

Example output_ambiguous_with_line_feed :
  App.write_output (elements ({[py "a"; py "b"]} : gset str))
  = App.write_output (elements ({[py "a" ++ [newline] ++ py "b"]} : gset str)).
Proof. vm_compute. reflexivity. Qed.

(** * More on the object store *)

Section store_extras.
Import AppStore.

Lemma subseteq_insert_fresh (h0 h : store) l o :
  h0 ⊆ h → h0 !! l = None → h0 ⊆ <[l := o]> h.
Proof. intros H Hl. by apply insert_subseteq_r. Qed.

Lemma subseteq_fresh (h0 h : store) : h0 ⊆ h → h0 !! fresh (dom h) = None.
Proof.
  intros H. destruct (h0 !! fresh (dom h)) as [o|] eqn:E; [|done].
  exfalso. apply (is_fresh (dom h)). apply elem_of_dom.
  exists o. by eapply lookup_weaken.
Qed.

Lemma build_loop_store_inv path d n rows h m h0 :
  dict_ok h d m → h0 ⊆ h → owned h0 d m →
  h0 ⊆ (build_loop path d n rows h).2
  ∧ ((build_loop path d n rows h).1 = Ok () →
     ∃ m', dict_ok (build_loop path d n rows h).2 d m' ∧ owned h0 d m').
Proof.
  revert n h m. induction rows as [|r rows IH]; intros n h m Hok Hsub Hown.
  - simpl. split; [done|]. intros _. eauto.
  - destruct (decide (three_fields r)) as [Hr|Hr].
    2:{ rewrite build_loop_cons_bad by done. simpl. split; done. }
    destruct (three_fields_inv r Hr) as (a & b & t & ->).
    destruct (App.record_of [a; b; t]) as [[u p]|] eqn:Hrec.
    + destruct (m !! u) as [l|] eqn:Hu.
      * pose proof Hok as (Hd & Hv & Hinj).
        destruct (Hv u l Hu) as [s Hs]. unfold set_at in Hs.
        destruct (h !! l) as [[|s']|] eqn:Hl; try done.
        injection Hs as ->.
        erewrite build_loop_cons_old by done.
        destruct (dict_ok_add_old h d m u l s p) as [Hok' _]; [done..|].
        apply (IH _ _ m); [done| |done].
        apply subseteq_insert_fresh; [done|]. destruct Hown as [_ Hown]. eauto.
      * pose proof Hok as (Hd & Hv & Hinj).
        erewrite build_loop_cons_new by done. cbv zeta.
        destruct (dict_ok_add_new h d m u p) as [Hok' _]; [done..|].
        pose proof (subseteq_fresh h0 h Hsub) as Hfresh.
        destruct Hown as [Hd0 Hown].
        eapply IH; [exact Hok'| |].
        -- repeat apply subseteq_insert_fresh; done.
        -- split; [done|]. intros u' l'.
           destruct (decide (u' = u)) as [->|Hne].
           ++ rewrite lookup_insert_eq. by intros [= <-].
           ++ rewrite lookup_insert_ne by done. eauto.
    + rewrite build_loop_cons_blank by done. by eapply IH.
Qed.

Lemma build_day1_index_store_inv path rows h0 :
  h0 ⊆ (build_day1_index path rows h0).2
  ∧ ∀ d, (build_day1_index path rows h0).1 = Ok d →
         ∃ m, dict_ok (build_day1_index path rows h0).2 d m ∧ owned h0 d m.
Proof.
  set (d := fresh (dom h0)).
  assert (Hd : h0 !! d = None) by (apply not_elem_of_dom, is_fresh).
  assert (Hok : dict_ok (<[d := ODict ∅]> h0) d ∅).
  { split_and!; [by rewrite lookup_insert_eq|done..]. }
  assert (Hsub : h0 ⊆ <[d := ODict ∅]> h0) by by apply insert_subseteq.
  assert (Hown : owned h0 d ∅) by (split; done).
  destruct (build_loop_store_inv path d 1 rows _ _ h0 Hok Hsub Hown) as [H1 H2].
  unfold build_day1_index. rewrite bind_run. unfold new_dict. fold d.
  rewrite bind_run.
  destruct (build_loop path d 1 rows (<[d:=ODict ∅]> h0)) as [[[]|e] h'];
    simpl in *.
  - split; [done|]. intros ? [= <-]. by apply H2.
  - split; done.
Qed.

Lemma set_at_Some h l s : set_at h l = Some s ↔ h !! l = Some (OSet s).
Proof.
  unfold set_at. destruct (h !! l) as [[|s']|]; naive_solver.
Qed.

End store_extras.

(** X14. [build_day1_index] writes only to objects it creates: every object
    in the store before the call is in the store after it, unchanged, whether
    the call returns or raises. *)
Theorem build_day1_index_frame path rows h0 :
  h0 ⊆ (AppStore.build_day1_index path rows h0).2.
Proof. apply build_day1_index_store_inv. Qed.

(** X15. The dictionary [build_day1_index] returns is a new object; each of
    its values refers to a set object that is new as well, and no two users
    refer to the same set, so [s.add(..)] for one user never shows in
    another user's products. *)
Theorem index_sets_not_shared path rows h0 idx h :
  AppStore.build_day1_index path rows h0 = (Ok idx, h) →
  h0 !! idx = None
  ∧ ∃ m, h !! idx = Some (AppStore.ODict m)
       ∧ (∀ u l, m !! u = Some l →
                 h0 !! l = None ∧ ∃ s, h !! l = Some (AppStore.OSet s))
       ∧ (∀ u u' l, m !! u = Some l → m !! u' = Some l → u = u').
Proof.
  intros H.
  destruct (build_day1_index_store_inv path rows h0) as [_ Hinv].
  rewrite H in Hinv. destruct (Hinv idx eq_refl) as (m & Hok & Hd & Hown).
  destruct Hok as (Hdict & Hv & Hinj).
  split; [done|]. exists m. split_and!; [done| |done].
  intros u l Hu. split; [by eauto|].
  destruct (Hv u l Hu) as [s Hs]. exists s. by apply set_at_Some.
Qed.

(** X15 on the store of the sample day-one file. *)
Lemma index_sets_not_shared_witness :
  (∅ : AppStore.store) !! 0 = None
  ∧ ∃ m, day1_store !! 0 = Some (AppStore.ODict m)
       ∧ (∀ u l, m !! u = Some l →
                 (∅ : AppStore.store) !! l = None
                 ∧ ∃ s, day1_store !! l = Some (AppStore.OSet s))
       ∧ (∀ u u' l, m !! u = Some l → m !! u' = Some l → u = u').
Proof.
  apply (index_sets_not_shared day1_csv day1_rows ∅ 0 day1_store).
  vm_compute. reflexivity.
Defined.

(** X16. On the store, [find_target_users] run on the index that
    [build_day1_index] built returns a reference to a set object that did not
    exist before, holding exactly the result computed on values; it raises
    exactly when the run on values raises, with the same exception. *)
Theorem store_run_returns_value_result day1 rows1 h0 idx h day2 rows2 :
  AppStore.build_day1_index day1 rows1 h0 = (Ok idx, h) →
  match App.target_users day1 rows1 day2 rows2 with
  | Ok result =>
      ∃ r, h !! r = None
        ∧ AppStore.find_target_users idx day2 rows2 h
          = (Ok r, <[r := AppStore.OSet result]> h)
  | Raise e => (AppStore.find_target_users idx day2 rows2 h).1 = Raise e
  end.
Proof.
  intros Hbuild.
  pose proof (build_day1_index_sim day1 rows1 h0) as Hsim.
  unfold App.target_users.
  destruct (App.build_day1_index day1 rows1) as [ix|e].
  2:{ destruct Hsim as (? & Hsim). by rewrite Hbuild in Hsim. }
  destruct Hsim as (d & h1 & m & Hsim & Hok & Hix).
  rewrite Hbuild in Hsim. injection Hsim as <- <-. simpl.
  rewrite <- Hix. by apply store_find_target_users_result.
Qed.

(** X16 on the sample files. *)
Lemma store_run_returns_value_result_witness :
  ∃ r, day1_store !! r = None
    ∧ AppStore.find_target_users 0 day2_csv day2_rows day1_store
      = (Ok r, <[r := AppStore.OSet {[u1]}]> day1_store).
Proof.
  assert (Hsample : App.target_users day1_csv day1_rows day2_csv day2_rows
                    = Ok {[u1]}) by (vm_compute; reflexivity).
  assert (Hbuild : AppStore.build_day1_index day1_csv day1_rows ∅
                   = (Ok 0, day1_store)) by (vm_compute; reflexivity).
  pose proof (store_run_returns_value_result day1_csv day1_rows ∅ 0 day1_store
                day2_csv day2_rows Hbuild) as H.
  rewrite Hsample in H. exact H.
Defined.

(** * The script of main.py *)



(** * What the loops keep *)

(** X18. The loops only add: a turn of the loop of [build_day1_index], or of
    [load_visits], never takes a product from a user, and the loop of
    [find_target_users] never takes a user from the result and adds none but
    keys of the index. *)
Theorem accumulators_only_grow :
  (∀ path n rows idx idx',
     App.build_loop path n rows idx = Ok idx' →
     ∀ u, products_of idx u ⊆ products_of idx' u)
  ∧ (∀ idx path n rows result result',
       App.find_loop idx path n rows result = Ok result' →
       result ⊆ result' ∧ result' ⊆ result ∪ dom idx)
  ∧ (∀ rows v v',
       Main.load_loop rows v = Ok v' →
       ∀ u, mproducts_of v u ⊆ mproducts_of v' u).
Proof.
  split_and!.
  - intros path n rows idx idx' H u p.
    rewrite !products_of_visited, (build_loop_visited _ _ _ _ _ H). tauto.
  - intros idx path n rows result result' H. split; intros u.
    + rewrite (find_loop_elem_of _ _ _ _ _ _ H). tauto.
    + rewrite (find_loop_elem_of _ _ _ _ _ _ H), elem_of_union, elem_of_dom.
      intros [?|(s & p & Hs & _)]; eauto.
  - intros rows v v' H u p.
    rewrite !mproducts_of_visited, (load_loop_visited _ _ _ H). tauto.
Qed.

(** X18 on the sample files, started from accumulators that are not empty. *)
Lemma accumulators_only_grow_witness :
  (∀ u, products_of {[u2 := {[pA]}]} u
        ⊆ products_of {[u1 := {[pA; pB]}; u2 := {[pA; pX]}]} u)
  ∧ (({[u2]} : gset str) ⊆ {[u1; u2]}
     ∧ ({[u1; u2]} : gset str)
       ⊆ {[u2]} ∪ dom ({[u1 := {[pA; pB]}]} : gmap str (gset str))).
Proof.
  split.
  - apply (proj1 accumulators_only_grow day1_csv 1 day1_rows).
    vm_compute. reflexivity.
  - apply (proj1 (proj2 accumulators_only_grow) {[u1 := {[pA; pB]}]}
             day2_csv 1 day2_rows).
    vm_compute. reflexivity.
Defined.
